(** * Drive Command Splitter: a shallow embedding of [app.py] and [main.py]

    The development follows the Streamlit script [src/app.py] and, in the
    module [MainScript], the command-line script [src/main.py]:

    - Python strings are sequences of Unicode code points ([pystr]); the string
      methods the script calls ([strip], [startswith], [endswith],
      [replace] with a count of one, the slice [[:-3]]) are written out.
    - Numbers are Python's: an [int] is an integer of any size and is
      computed with exactly, a [float] is a binary64 number, computed with
      the operations of the Standard Library's [SpecFloat]; the conversions
      between the two, the comparison and the exception [OverflowError] are
      written out.
    - The value returned by [json.loads] is a [json] tree; Python's rules for
      truthiness, [dict.get], [in], subscripting and iteration are written out
      with the exceptions they raise.
    - The collaborators the script calls but does not define (the environment,
      the PDF reader, the completion client, [json.loads]) are the fields of
      one record, [externals]; a reference JSON decoder is provided to run the
      script on concrete responses.
    - Everything the script shows to the user is recorded as a trace of
      [event]s, together with every call to the completion client. *)

From Stdlib Require Import QArith Qabs Qminmax Lqa Ascii String Lia SpecFloat.
From stdpp Require Import base decidable option numbers gmap pretty list.

Set Warnings "-register-all".
#[local] Open Scope list_scope.

(** ** Python strings *)

Definition pystr : Type := list N.

(** A literal: the code points of an ASCII text. *)
Definition lit (s : string) : pystr :=
  (λ a : ascii, N_of_ascii a) <$> list_ascii_of_string s.

(** A literal with double quotes written as single quotes. *)
Definition dq (s : string) : pystr :=
  (λ c : N, if (c =? 39)%N then 34%N else c) <$> lit s.

(** [str.isspace] on one code point: the code points Python's [strip]
    removes when called without argument. *)
Definition isspace (c : N) : bool :=
  ((9 <=? c) && (c <=? 13) || (28 <=? c) && (c <=? 32)
   || (c =? 133) || (c =? 160) || (c =? 5760)
   || (8192 <=? c) && (c <=? 8202)
   || (c =? 8232) || (c =? 8233) || (c =? 8239) || (c =? 8287)
   || (c =? 12288))%N.

Fixpoint lstrip (s : pystr) : pystr :=
  match s with
  | c :: s' => if isspace c then lstrip s' else s
  | [] => []
  end.

Definition rstrip (s : pystr) : pystr := reverse (lstrip (reverse s)).

(** [s.strip()] *)
Definition strip (s : pystr) : pystr := rstrip (lstrip s).

(** [s.startswith(p)] and [s.endswith(p)] *)
Definition startswith (p s : pystr) : bool := bool_decide (p `prefix_of` s).
Definition endswith (p s : pystr) : bool := bool_decide (p `suffix_of` s).

(** [s.replace(old, new, 1)]: the leftmost occurrence of [old] is replaced. *)
Fixpoint replace_first (old new s : pystr) : pystr :=
  if startswith old s then new ++ drop (length old) s
  else match s with
       | [] => []
       | c :: s' => c :: replace_first old new s'
       end.

(** [s[:-k]] for a positive [k]: all but the last [k] code points (nothing
    when [s] is shorter). *)
Definition drop_last (k : nat) (s : pystr) : pystr := take (length s - k) s.

Definition fence_json : pystr := lit "```json".
Definition fence : pystr := lit "```".

(** Lines 79-82 of [extract_invoice_data], on the stripped response. *)
Definition strip_fences (response_text : pystr) : pystr :=
  let response_text :=
    if startswith fence_json response_text
    then replace_first fence_json [] response_text
    else response_text in
  let response_text :=
    if endswith fence response_text
    then drop_last 3 response_text
    else response_text in
  response_text.

(** Lines 78-84: the text handed to [json.loads]. *)
Definition json_text (response : pystr) : pystr :=
  strip (strip_fences (strip response)).

(** The response the fifth testable property builds: the text between a
    leading [```json] line and a trailing [```] line. *)
Definition wrap_in_fence (j : pystr) : pystr :=
  fence_json ++ [10%N] ++ j ++ [10%N] ++ fence.

(** ** Exceptions *)

Inductive exn :=
| AttributeError | TypeError | ValueError | KeyError | IndexError
| OverflowError
| JSONDecodeError  (* raised by [json.loads], a subclass of [ValueError] *)
| RecursionError
| ReaderError      (* raised by [PDFReader.load_data] *)
| CompletionError. (* raised by the completion client *)

#[global] Instance exn_eq_dec : EqDecision exn.
Proof. solve_decision. Defined.

Inductive result (A : Type) :=
| Ok (a : A)
| Raise (e : exn).
Arguments Ok {A} a.
Arguments Raise {A} e.

(** A result that is no exception. *)
Definition is_Ok {A} (r : result A) : Prop := ∃ a, r = Ok a.

#[global] Instance is_Ok_dec {A} (r : result A) : Decision (is_Ok r).
Proof.
  destruct r as [a|e]; [left; by exists a | right; by intros [a ?]].
Defined.

#[global] Instance result_ret : MRet result := λ A a, Ok a.
#[global] Instance result_bind : MBind result := λ A B k r,
  match r with
  | Ok a => k a
  | Raise e => Raise e
  end.

(** ** Python numbers

    A float is a binary64 number: a [spec_float] of the Standard Library
    with a precision of 53 bits, and the sums, differences and quotients of
    floats are the library's, rounded to the nearest float, the even one of
    two. An int is an integer of any size. *)

Definition prec : Z := 53.
Definition emax : Z := 1024.

Definition float : Type := spec_float.

Inductive number :=
| PInt (z : Z)
| PFloat (f : float).

(** The float nearest to [z * 2 ^ e]; Python raises where the result would be
    an infinity ("int too large to convert to float", "integer division
    result too large for a float"). *)
Definition nearest_float (z e : Z) : result float :=
  match binary_normalize prec emax z e false with
  | S754_infinity _ => Raise OverflowError
  | f => Ok f
  end.

(** [float(z)] *)
Definition float_of_int (z : Z) : result float := nearest_float z 0.

(** The float an operation with a float, or [f"{n:.2f}"], takes for [n]. *)
Definition to_float (n : number) : result float :=
  match n with
  | PInt z => float_of_int z
  | PFloat f => Ok f
  end.

(** [a + b] and [a - b]: exact between ints, between floats otherwise. *)
Definition add (a b : number) : result number :=
  match a, b with
  | PInt x, PInt y => Ok (PInt (x + y))
  | _, _ => x ← to_float a; y ← to_float b; Ok (PFloat (SFadd prec emax x y))
  end.

Definition sub (a b : number) : result number :=
  match a, b with
  | PInt x, PInt y => Ok (PInt (x - y))
  | _, _ => x ← to_float a; y ← to_float b; Ok (PFloat (SFsub prec emax x y))
  end.

Definition float_two : float := S754_finite false 4503599627370496 (-51).

(** [a / 2]: always a float; the quotient of an int is rounded once. *)
Definition halve (a : number) : result float :=
  match a with
  | PInt z => nearest_float z (-1)
  | PFloat f => Ok (SFdiv prec emax f float_two)
  end.

(** The value of a number: a rational, or an infinity; NaN has none. *)
Inductive extended :=
| NegInf
| Finite (q : Q)
| PosInf.

Definition float_value (f : float) : option extended :=
  match f with
  | S754_nan => None
  | S754_infinity s => Some (if s then NegInf else PosInf)
  | S754_zero _ => Some (Finite 0)
  | S754_finite s m e =>
      Some (Finite (inject_Z (cond_Zopp s (Z.pos m)) * Qpower 2 e))
  end.

Definition value (n : number) : option extended :=
  match n with
  | PInt z => Some (Finite (inject_Z z))
  | PFloat f => float_value f
  end.

Definition Qlt_bool (x y : Q) : bool := negb (Qle_bool y x).

Definition extended_lt (x y : extended) : bool :=
  match x, y with
  | NegInf, (Finite _ | PosInf) => true
  | Finite _, PosInf => true
  | Finite p, Finite q => Qlt_bool p q
  | _, _ => false
  end.

(** [a > b]: Python compares two numbers by their values, also an int with
    a float; a comparison with NaN is false. *)
Definition gt (a b : number) : bool :=
  match value a, value b with
  | Some x, Some y => extended_lt y x
  | _, _ => false
  end.

(** [bool(n)] *)
Definition nonzero (n : number) : bool :=
  match n with
  | PInt z => negb (z =? 0)%Z
  | PFloat (S754_zero _) => false
  | PFloat _ => true
  end.

(** The float a decimal literal with a fraction or an exponent denotes,
    [float("...")]: the float nearest to [m * 10 ^ e10], negated for [neg]. *)
Definition float_of_decimal (neg : bool) (m e10 : Z) : float :=
  match m with
  | Z.pos _ =>
      if (0 <=? e10)%Z
      then binary_round prec emax neg (Z.to_pos (m * 10 ^ e10)) 0
      else let '(q, e, l) := SFdiv_core_binary prec emax m 0 (10 ^ (- e10)) 0 in
           binary_round_aux prec emax neg q e l
  | _ => S754_zero neg
  end.

(** The float written [m] with [e10] more decimal places to the left of its
    point: [decimal 1 (-1)] is [0.1], [decimal 1000 (-1)] is [100.0]. *)
Definition decimal (m e10 : Z) : float := float_of_decimal false m e10.

(** ** JSON values, as [json.loads] returns them *)

Inductive json :=
| JNull
| JBool (b : bool)
| JNum (n : number)
| JStr (s : pystr)
| JArr (items : list json)
| JObj (fields : gmap pystr json).

#[global] Instance json_inhabited : Inhabited json := populate JNull.

(** Python's truth value of a decoded value ([if x:]). *)
Definition truthy (v : json) : bool :=
  match v with
  | JNull => false
  | JBool b => b
  | JNum n => nonzero n
  | JStr s => negb (bool_decide (s = []))
  | JArr items => negb (bool_decide (items = []))
  | JObj fields => negb (bool_decide (fields = ∅))
  end.

(** The numeric value of a decoded value, where Python has one ([bool] is a
    subclass of [int]). *)
Definition as_number (v : json) : option number :=
  match v with
  | JNum n => Some n
  | JBool b => Some (PInt (if b then 1 else 0))
  | _ => None
  end.

(** [f"{v:.2f}"]: the float that is written with two decimals. A text has no
    format [f], [None], a list or a dict no format at all. *)
Definition format_2f (v : json) : result float :=
  match as_number v with
  | Some n => to_float n
  | None => Raise match v with JStr _ => ValueError | _ => TypeError end
  end.

(** ** A reference decoder for [json.loads]

    The text is cut into tokens by a one-pass scanner, and the tokens are
    read by recursive descent. The grammar is that of RFC 8259, with the
    constants [NaN], [Infinity] and [-Infinity], which [json.loads] also
    accepts. A number without fraction and exponent is an int, any other a
    float. The decoder reads texts of any depth and integers of any length:
    where CPython gives up with [RecursionError] or, for an integer literal
    of more than 4300 digits, with [ValueError], it still returns a value. *)

Module Decoder.

Inductive token :=
| TLBrace | TRBrace | TLBracket | TRBracket | TColon | TComma
| TStr (s : pystr) | TNum (n : number) | TTrue | TFalse | TNull.

(** The state of the scanner between two code points. Accumulators hold
    the code points read so far, last first; [hi] is a high surrogate read
    from a [\u] escape and not yet written, waiting for its low surrogate. *)
Inductive lex_state :=
| Idle
| InStr (acc : pystr) (hi : option N)
| InEsc (acc : pystr) (hi : option N)
| InHex (acc : pystr) (hi : option N) (k : nat) (v : N)
| InNum (acc : pystr)
| InWord (acc : pystr).

Definition is_json_ws (c : N) : bool :=
  ((c =? 32) || (c =? 9) || (c =? 10) || (c =? 13))%N.
Definition is_digit (c : N) : bool := ((48 <=? c) && (c <=? 57))%N.
Definition is_alpha (c : N) : bool :=
  ((97 <=? c) && (c <=? 122) || (65 <=? c) && (c <=? 90))%N.
(** The code points of a number: digits, [+], [-], [.], [e], [E]. *)
Definition is_num_char (c : N) : bool :=
  (is_digit c || (c =? 43) || (c =? 45) || (c =? 46) || (c =? 101) || (c =? 69))%N.

Definition hex_value (c : N) : option N :=
  if is_digit c then Some (c - 48)%N
  else if ((97 <=? c) && (c <=? 102))%N then Some (c - 87)%N
  else if ((65 <=? c) && (c <=? 70))%N then Some (c - 55)%N
  else None.

Fixpoint span_digits (s : pystr) : pystr * pystr :=
  match s with
  | c :: s' => if is_digit c then let '(ds, r) := span_digits s' in (c :: ds, r)
               else ([], s)
  | [] => ([], [])
  end.

Definition digits_value (ds : pystr) : Z :=
  foldl (λ acc c, 10 * acc + Z.of_N (c - 48))%Z 0%Z ds.

(** A number: an optional minus sign, an integer part without a leading zero
    (or the single digit zero), an optional fraction (a dot and digits), an
    optional exponent ([e] or [E], an optional sign, digits), nothing after. *)
Definition parse_number (s : pystr) : option number :=
  let '(neg, s) := match s with 45%N :: s' => (true, s') | _ => (false, s) end in
  let '(ip, s) := span_digits s in
  guard (ip ≠ [] ∧ (length ip = 1 ∨ head ip ≠ Some 48%N));;
  '(fp, s) ← match s with
             | 46%N :: s' => let '(fp, r) := span_digits s' in
                             guard (fp ≠ []);; Some (Some fp, r)
             | _ => Some (None, s)
             end;
  ex ← match s with
       | [] => Some None
       | c :: s' =>
           guard (c = 101%N ∨ c = 69%N);;
           let '(sg, s'') := match s' with
                             | 43%N :: r => (1%Z, r)
                             | 45%N :: r => ((-1)%Z, r)
                             | _ => (1%Z, s')
                             end in
           let '(ds, r) := span_digits s'' in
           guard (ds ≠ [] ∧ r = []);; Some (Some (sg * digits_value ds)%Z)
       end;
  match fp, ex with
  | None, None =>
      let z := digits_value ip in Some (PInt (if neg then - z else z)%Z)
  | _, _ =>
      let fp := default [] fp in
      Some (PFloat (float_of_decimal neg (digits_value (ip ++ fp))
                      (default 0 ex - Z.of_nat (length fp))%Z))
  end.

Definition word_token (s : pystr) : option token :=
  if bool_decide (s = lit "true") then Some TTrue
  else if bool_decide (s = lit "false") then Some TFalse
  else if bool_decide (s = lit "null") then Some TNull
  else if bool_decide (s = lit "NaN") then Some (TNum (PFloat S754_nan))
  else if bool_decide (s = lit "Infinity")
  then Some (TNum (PFloat (S754_infinity false)))
  else if bool_decide (s = lit "-Infinity")
  then Some (TNum (PFloat (S754_infinity true)))
  else None.

Definition is_high_surrogate (u : N) : bool := ((55296 <=? u) && (u <=? 56319))%N.
Definition is_low_surrogate (u : N) : bool := ((56320 <=? u) && (u <=? 57343))%N.

(** Writes a pending high surrogate that found no partner. *)
Definition flush (acc : pystr) (hi : option N) : pystr :=
  match hi with Some h => h :: acc | None => acc end.

(** The end of a [\uXXXX] escape of value [u]. *)
Definition end_escape (acc : pystr) (hi : option N) (u : N) : lex_state :=
  match hi with
  | Some h =>
      if is_low_surrogate u
      then InStr ((65536 + (h - 55296) * 1024 + (u - 56320))%N :: acc) None
      else if is_high_surrogate u then InStr (h :: acc) (Some u)
      else InStr (u :: h :: acc) None
  | None =>
      if is_high_surrogate u then InStr acc (Some u) else InStr (u :: acc) None
  end.

Definition idle_step (c : N) : option (lex_state * list token) :=
  if is_json_ws c then Some (Idle, [])
  else if (c =? 123)%N then Some (Idle, [TLBrace])
  else if (c =? 125)%N then Some (Idle, [TRBrace])
  else if (c =? 91)%N then Some (Idle, [TLBracket])
  else if (c =? 93)%N then Some (Idle, [TRBracket])
  else if (c =? 58)%N then Some (Idle, [TColon])
  else if (c =? 44)%N then Some (Idle, [TComma])
  else if (c =? 34)%N then Some (InStr [] None, [])
  else if (is_digit c || (c =? 45))%N then Some (InNum [c], [])
  else if is_alpha c then Some (InWord [c], [])
  else None.

Definition escape_char (c : N) : option N :=
  if ((c =? 34) || (c =? 92) || (c =? 47))%N then Some c
  else if (c =? 98)%N then Some 8%N
  else if (c =? 102)%N then Some 12%N
  else if (c =? 110)%N then Some 10%N
  else if (c =? 114)%N then Some 13%N
  else if (c =? 116)%N then Some 9%N
  else None.

Definition lex_step (st : lex_state) (c : N) : option (lex_state * list token) :=
  match st with
  | Idle => idle_step c
  | InStr acc hi =>
      if (c =? 34)%N then Some (Idle, [TStr (reverse (flush acc hi))])
      else if (c =? 92)%N then Some (InEsc acc hi, [])
      else if (c <? 32)%N then None
      else Some (InStr (c :: flush acc hi) None, [])
  | InEsc acc hi =>
      if (c =? 117)%N then Some (InHex acc hi 0 0%N, [])
      else e ← escape_char c; Some (InStr (e :: flush acc hi) None, [])
  | InHex acc hi k v =>
      d ← hex_value c;
      let v := (16 * v + d)%N in
      Some (if bool_decide (k = 3) then end_escape acc hi v
            else InHex acc hi (S k) v, [])
  | InNum acc =>
      if is_num_char c then Some (InNum (c :: acc), [])
      else if bool_decide (acc = [45%N]) && (c =? 73)%N  (* [-I], for [-Infinity] *)
      then Some (InWord [c; 45%N], [])
      else q ← parse_number (reverse acc);
           '(st', ts) ← idle_step c; Some (st', TNum q :: ts)
  | InWord acc =>
      if is_alpha c then Some (InWord (c :: acc), [])
      else t ← word_token (reverse acc);
           '(st', ts) ← idle_step c; Some (st', t :: ts)
  end.

Definition lex_finish (st : lex_state) : option (list token) :=
  match st with
  | Idle => Some []
  | InNum acc => q ← parse_number (reverse acc); Some [TNum q]
  | InWord acc => t ← word_token (reverse acc); Some [t]
  | _ => None
  end.

Fixpoint lex (st : lex_state) (s : pystr) : option (list token) :=
  match s with
  | [] => lex_finish st
  | c :: s' =>
      '(st', ts) ← lex_step st c;
      rest ← lex st' s';
      Some (ts ++ rest)
  end.

(** The elements of an array after its opening bracket, the first one
    included; [pv] reads one value. *)
Fixpoint parse_elements (pv : list token → option (json * list token))
    (fuel : nat) (acc : list json) (ts : list token)
    : option (list json * list token) :=
  match fuel with
  | O => None
  | S fuel =>
      '(v, r) ← pv ts;
      match r with
      | TComma :: r' => parse_elements pv fuel (v :: acc) r'
      | TRBracket :: r' => Some (reverse (v :: acc), r')
      | _ => None
      end
  end.

(** The members of an object after its opening brace; a key read twice
    keeps the value read last. *)
Fixpoint parse_members (pv : list token → option (json * list token))
    (fuel : nat) (acc : gmap pystr json) (ts : list token)
    : option (gmap pystr json * list token) :=
  match fuel with
  | O => None
  | S fuel =>
      match ts with
      | TStr k :: TColon :: r =>
          '(v, r) ← pv r;
          match r with
          | TComma :: r' => parse_members pv fuel (<[k := v]> acc) r'
          | TRBrace :: r' => Some (<[k := v]> acc, r')
          | _ => None
          end
      | _ => None
      end
  end.

Fixpoint parse_value (fuel : nat) (ts : list token) : option (json * list token) :=
  match fuel with
  | O => None
  | S fuel =>
      match ts with
      | TNull :: r => Some (JNull, r)
      | TTrue :: r => Some (JBool true, r)
      | TFalse :: r => Some (JBool false, r)
      | TNum q :: r => Some (JNum q, r)
      | TStr s :: r => Some (JStr s, r)
      | TLBracket :: TRBracket :: r => Some (JArr [], r)
      | TLBracket :: r =>
          '(l, r') ← parse_elements (parse_value fuel) fuel [] r; Some (JArr l, r')
      | TLBrace :: TRBrace :: r => Some (JObj ∅, r)
      | TLBrace :: r =>
          '(m, r') ← parse_members (parse_value fuel) fuel ∅ r; Some (JObj m, r')
      | _ => None
      end
  end.

Definition decode (s : pystr) : option json :=
  ts ← lex Idle s;
  match parse_value (S (length ts)) ts with
  | Some (v, []) => Some v
  | _ => None
  end.

Definition reference_json_loads (s : pystr) : result json :=
  match decode s with
  | Some v => Ok v
  | None => Raise JSONDecodeError
  end.






End Decoder.

Import Decoder.

(** ** Collaborators and what the user is shown *)

Inductive person := Person1 | Person2.

(** The arguments of [OpenRouter(...)]. *)
Record llm_config := {
  api_key : pystr;
  max_tokens : N;
  context_window : N;
  model : pystr
}.

(** The three texts passed to [st.error]. *)
Inductive message :=
| ApiKeyNotFound  (* "OpenRouter API key not found. Please set it in the .env file." *)
| ParseFailure    (* "Error parsing LLM response: ..." with the decoder's message *)
| NoLineItems.    (* "No line items found in the invoice." *)

(** What a run shows or requests, in order. Fixed texts (title, headers,
    rules) are left out; of a number written with two decimals the event
    holds the float that is written. *)
Inductive event :=
| Completion (cfg : llm_config) (prompt : pystr)  (* [llm.complete(prompt)] *)
| StError (m : message)                           (* [st.error] *)
| StText (s : pystr)                              (* [st.text] *)
| InvoiceId (v : json)                            (* "**Invoice ID:** {v}" *)
| InvoiceDate (v : json)                          (* "**Date:** {v}" *)
| RowName (v : json)                              (* the item column of a row *)
| RowPrice (price : float)                        (* the price column of a row *)
| Metric (who : person) (total : float)           (* "{name}'s Total" *)
| TotalExpense (total : float)
| SplitAmount (split : float)
| Owes (debtor creditor : person) (amount : float) (* "{debtor} owes {creditor}:" *)
| PerfectlySplit.                                 (* "All expenses are perfectly split!" *)

(** What the script calls and does not define. *)
Record externals := {
  os_getenv : pystr → option pystr;
  pdf_load_data : pystr → result (list pystr);      (* the text of each page *)
  llm_complete : llm_config → pystr → result pystr; (* [response.text] *)
  json_loads : pystr → result json
}.

(** ** [extract_text_from_pdf] and [extract_invoice_data] *)

Definition nl : pystr := [10%N].

Definition extract_text_from_pdf (ext : externals) (pdf_path : pystr) : result pystr :=
  match pdf_load_data ext pdf_path with
  | Ok documents =>
      Ok (foldl (λ full_text doc, full_text ++ doc ++ nl ++ nl) [] documents)
  | Raise e => Raise e
  end.

(** The f-string of lines 50-69 around [text]. *)
Definition prompt_head : pystr :=
  nl ++ lit "    Extract the following information from the invoice text and return it as JSON:"
  ++ nl ++ lit "    1. The invoice ID (a unique identifier, often a number)"
  ++ nl ++ lit "    2. The date of the invoice"
  ++ nl ++ lit "    3. A list of line items, each with:"
  ++ nl ++ lit "       - Item name"
  ++ nl ++ lit "       - Total price"
  ++ nl
  ++ nl ++ lit "    Return the data in this format:"
  ++ nl ++ dq "    {'invoice_id': 'the_extracted_id',"
  ++ nl ++ dq "     'date': 'YYYY-MM-DD',"
  ++ nl ++ dq "     'line_items': ["
  ++ nl ++ dq "        {'item_name': 'First item', 'total_price': 100.0},"
  ++ nl ++ dq "        {'item_name': 'Second item', 'total_price': 200.0}"
  ++ nl ++ lit "      ]"
  ++ nl ++ lit "    }"
  ++ nl
  ++ nl ++ lit "    Text:"
  ++ nl ++ lit "    ".

Definition make_prompt (text : pystr) : pystr :=
  prompt_head ++ text ++ nl ++ lit "    ".

Definition openrouter (key : pystr) : llm_config :=
  {| api_key := key; max_tokens := 2048; context_window := 8192;
     model := lit "openai/gpt-4o" |}.

(** The function returns what it has shown and requested, and either the
    value it returns ([None] is Python's [None], which is also what the
    text [null] decodes to) or the exception that left it. Line 86 catches
    [JSONDecodeError] and no other exception of the decoder. *)
Definition extract_invoice_data (ext : externals) (pdf_path : pystr)
    : list event * result (option json) :=
  match extract_text_from_pdf ext pdf_path with
  | Raise e => ([], Raise e)
  | Ok text =>
      match os_getenv ext (lit "OPENROUTER_API_KEY") with
      | None | Some [] => ([StError ApiKeyNotFound], Ok None)
      | Some key =>
          let llm := openrouter key in
          let prompt := make_prompt text in
          match llm_complete ext llm prompt with
          | Raise e => ([Completion llm prompt], Raise e)
          | Ok response =>
              match json_loads ext (json_text response) with
              | Ok JNull => ([Completion llm prompt], Ok None)
              | Ok invoice_data =>
                  ([Completion llm prompt], Ok (Some invoice_data))
              | Raise JSONDecodeError =>
                  ([Completion llm prompt; StError ParseFailure; StText response],
                   Ok None)
              | Raise e => ([Completion llm prompt], Raise e)
              end
          end
      end
  end.

(** How often a trace calls the completion client. *)
Definition is_completion (e : event) : bool :=
  match e with Completion _ _ => true | _ => false end.
Definition completion_calls (tr : list event) : nat :=
  length (List.filter is_completion tr).

(** ** The session and one run of the script *)

(** [st.session_state] (lines 98-103). *)
Record session := {
  invoice_data : option json;
  person1_items : list nat;
  person2_items : list nat
}.

Definition initial_session : session :=
  {| invoice_data := None; person1_items := []; person2_items := [] |}.

(** What the user has done when a run starts: the uploaded file, whether the
    run was started by the "Process Invoice" button, and the state of the
    checkboxes [p1_i] and [p2_i] ([None] for a box the user has not set). *)
Record run_input := {
  uploaded_file : option pystr;
  process_clicked : bool;
  p1_box : nat → option bool;
  p2_box : nat → option bool
}.

(** Where a run stops: the session as it is then, what was shown, and the
    exception that stopped it, if any. *)
Record run_result := {
  final : session;
  shown : list event;
  raised : option exn
}.

Definition completed (st : session) (evs : list event) : run_result :=
  {| final := st; shown := evs; raised := None |}.
Definition crashed (st : session) (evs : list event) (e : exn) : run_result :=
  {| final := st; shown := evs; raised := Some e |}.

(** [r] and then, unless [r] raised, [k] on the session [r] left. *)
Definition and_then (r : run_result) (k : session → run_result) : run_result :=
  match raised r with
  | Some _ => r
  | None => let r' := k (final r) in
            {| final := final r'; shown := shown r ++ shown r'; raised := raised r' |}
  end.

(** Lines 115-124, the handler of the "Process Invoice" button. *)
Definition process_invoice (ext : externals) (pdf_path : pystr) (st : session)
    : run_result :=
  match extract_invoice_data ext pdf_path with
  | (evs, Raise e) => crashed st evs e
  | (evs, Ok data) =>
      completed {| invoice_data := data; person1_items := []; person2_items := [] |} evs
  end.

(** [st.checkbox(..., value=v)]: the state the user gave the box, else [v]. *)
Definition checkbox (box : option bool) (value : bool) : bool := default value box.

(** [i in items] *)
Definition contains (i : nat) (items : list nat) : bool := bool_decide (i ∈ items).

(** [items.remove(i)] for an [i] that is in [items]: the first occurrence goes. *)
Fixpoint remove (i : nat) (items : list nat) : list nat :=
  match items with
  | [] => []
  | j :: rest => if decide (j = i) then rest else j :: remove i rest
  end.

(** Lines 186-189 (and 191-194). *)
Definition update_items (checked : bool) (i : nat) (items : list nat) : list nat :=
  if checked && negb (contains i items) then items ++ [i]
  else if negb checked && contains i items then remove i items
  else items.

(** The body of the loop of line 163, for row [i]. *)
Definition row (inp : run_input) (i : nat) (item : json) (st : session) : run_result :=
  match item with
  | JObj fields =>
      let item_name := default (JStr (lit "Unknown item")) (fields !! lit "item_name") in
      let price := default (JNum (PFloat (S754_zero false)))
                     (fields !! lit "total_price") in
      match format_2f price with
      | Raise e => crashed st [RowName item_name] e
      | Ok written =>
          let person1_checked := checkbox (p1_box inp i) (contains i (person1_items st)) in
          let person2_checked := checkbox (p2_box inp i) (contains i (person2_items st)) in
          completed
            {| invoice_data := invoice_data st;
               person1_items := update_items person1_checked i (person1_items st);
               person2_items := update_items person2_checked i (person2_items st) |}
            [RowName item_name; RowPrice written]
      end
  | _ => crashed st [] AttributeError  (* [item.get] *)
  end.

Fixpoint rows (inp : run_input) (i : nat) (items : list json) (st : session)
    : run_result :=
  match items with
  | [] => completed st []
  | item :: rest => and_then (row inp i item st) (rows inp (S i) rest)
  end.

(** What [for ... in enumerate(v)] goes through: the elements of a list, the
    characters of a text, the keys of a dict (texts, so that the loop of
    line 163 raises at the first of them, whatever their order). *)
Definition iterate (v : json) : result (list json) :=
  match v with
  | JArr items => Ok items
  | JStr s => Ok ((λ c, JStr [c]) <$> s)
  | JObj fields => Ok ((λ kv, JStr kv.1) <$> map_to_list fields)
  | _ => Raise TypeError
  end.

(** [v[i]] and [v[k]] *)
Definition subscript_int (v : json) (i : nat) : result json :=
  match v with
  | JArr items => match items !! i with Some x => Ok x | None => Raise IndexError end
  | JStr s => match s !! i with Some c => Ok (JStr [c]) | None => Raise IndexError end
  | JObj _ => Raise KeyError
  | _ => Raise TypeError
  end.

Definition subscript_str (v : json) (k : pystr) : result json :=
  match v with
  | JObj fields => match fields !! k with Some x => Ok x | None => Raise KeyError end
  | _ => Raise TypeError
  end.

(** [sum(line_items[i]['total_price'] for i in selected)], from [acc]: the
    prices are added one after the other, as CPython up to 3.11 does. (Later
    versions add floats with a compensation term; the sum is the same for
    ints, for one float or two, and whenever no addition rounds.) *)
Fixpoint sum_prices (line_items : json) (selected : list nat) (acc : number)
    : result number :=
  match selected with
  | [] => Ok acc
  | i :: rest =>
      match subscript_int line_items i with
      | Raise e => Raise e
      | Ok item =>
          match subscript_str item (lit "total_price") with
          | Raise e => Raise e
          | Ok v =>
              match as_number v with
              | None => Raise TypeError
              | Some price =>
                  match add acc price with
                  | Raise e => Raise e
                  | Ok acc => sum_prices line_items rest acc
                  end
              end
          end
      end
  end.

(** Lines 197-200. *)
Definition person_total (line_items : json) (selected : list nat) : result number :=
  sum_prices line_items selected (PInt 0).

Definition Qgt_bool (x y : Q) : bool := negb (Qle_bool x y).

(** Lines 220-227, with the [split_amount] of line 213. *)
Definition who_owes (person1_total person2_total : number) (split_amount : float)
    : result event :=
  if gt person1_total person2_total
  then amount_owed ← sub person1_total (PFloat split_amount);
       written ← to_float amount_owed;
       Ok (Owes Person2 Person1 written)
  else if gt person2_total person1_total
  then amount_owed ← sub person2_total (PFloat split_amount);
       written ← to_float amount_owed;
       Ok (Owes Person1 Person2 written)
  else Ok PerfectlySplit.

(** Lines 202-227: what is shown, and the exception that ends it, if any.
    A number is converted when its line is written, so that a total too
    large for a float ends the summary at its own line. *)
Definition summary (person1_total person2_total : number) : list event * option exn :=
  match to_float person1_total with                       (* line 207 *)
  | Raise e => ([], Some e)
  | Ok total1 =>
  match to_float person2_total with                       (* line 209 *)
  | Raise e => ([Metric Person1 total1], Some e)
  | Ok total2 =>
  let totals := [Metric Person1 total1; Metric Person2 total2] in
  match add person1_total person2_total with              (* line 212 *)
  | Raise e => (totals, Some e)
  | Ok total_expense =>
  match halve total_expense with                          (* line 213 *)
  | Raise e => (totals, Some e)
  | Ok split_amount =>
  match to_float total_expense with                       (* line 217 *)
  | Raise e => (totals, Some e)
  | Ok total =>
  let amounts := [TotalExpense total; SplitAmount split_amount] in
  match who_owes person1_total person2_total split_amount with
  | Raise e => (totals ++ amounts, Some e)
  | Ok line => (totals ++ amounts ++ [line], None)
  end end end end end end.

(** Lines 138-229, for the value [line_items] of the key ['line_items']. *)
Definition split_interface (inp : run_input) (line_items : json) (st : session)
    : run_result :=
  match iterate line_items with
  | Raise e => crashed st [] e
  | Ok items =>
      and_then (rows inp 0 items st) (λ st,
        match person_total line_items (person1_items st) with
        | Raise e => crashed st [] e
        | Ok person1_total =>
            match person_total line_items (person2_items st) with
            | Raise e => crashed st [] e
            | Ok person2_total =>
                {| final := st;
                   shown := (summary person1_total person2_total).1;
                   raised := (summary person1_total person2_total).2 |}
            end
        end)
  end.

Definition not_available : json := JStr (lit "N/A").

(** Lines 127-229. *)
Definition display (inp : run_input) (st : session) : run_result :=
  match invoice_data st with
  | None => completed st []
  | Some data =>
      if negb (truthy data) then completed st []
      else match data with
           | JObj fields =>
               let header :=
                 [InvoiceId (default not_available (fields !! lit "invoice_id"));
                  InvoiceDate (default not_available (fields !! lit "date"))] in
               match fields !! lit "line_items" with
               | Some line_items =>
                   if truthy line_items
                   then and_then (completed st header) (split_interface inp line_items)
                   else completed st (header ++ [StError NoLineItems])
               | None => completed st (header ++ [StError NoLineItems])
               end
           | _ => crashed st [] AttributeError  (* [invoice_data.get] *)
           end
  end.

(** One run of the script, from the session the previous run left. *)
Definition script (ext : externals) (inp : run_input) (st : session) : run_result :=
  and_then
    match uploaded_file inp with
    | Some pdf => if process_clicked inp then process_invoice ext pdf st
                  else completed st []
    | None => completed st []
    end
    (display inp).

(** The session after a sequence of runs. *)
Definition after_runs (runs : list (externals * run_input)) (st : session) : session :=
  foldl (λ st run, final (script run.1 run.2 st)) st runs.

(** ** Toggles

    A click on the checkbox of [who] in row [i] starts a run in which that
    box holds the opposite of what it showed and every other box shows what
    it showed before. *)
Definition items_of (who : person) (st : session) : list nat :=
  match who with Person1 => person1_items st | Person2 => person2_items st end.

Definition other (who : person) : person :=
  match who with Person1 => Person2 | Person2 => Person1 end.

Definition toggle_input (who : person) (i : nat) (st : session) : run_input :=
  let flipped := Some (negb (contains i (items_of who st))) in
  {| uploaded_file := None;
     process_clicked := false;
     p1_box := λ j, match who with
                    | Person1 => if decide (j = i) then flipped else None
                    | Person2 => None
                    end;
     p2_box := λ j, match who with
                    | Person2 => if decide (j = i) then flipped else None
                    | Person1 => None
                    end |}.

Definition toggle (ext : externals) (who : person) (i : nat) (st : session) : session :=
  final (script ext (toggle_input who i st) st).

(** ** Quantities of the testable properties that the script does not compute *)

(** The price lines 197-200 read from a row: [item['total_price']], when the
    row is a dict that has the key and the value is a number. *)
Definition price_of (item : json) : option number :=
  match item with
  | JObj fields => fields !! lit "total_price" ≫= as_number
  | _ => None
  end.

(** The price of a row whose price is an int. *)
Definition int_price (item : json) : option Z :=
  match price_of item with
  | Some (PInt z) => Some z
  | _ => None
  end.

Definition sum_Z (zs : list Z) : Z := foldr Z.add 0%Z zs.

(** The sum of all [total_price] values of an invoice with int prices. *)
Definition invoice_total (items : list json) : Z :=
  sum_Z ((λ item, default 0%Z (int_price item)) <$> items).

(** The indices assigned to neither person, and the sum of their prices. *)
Definition unassigned (items : list json) (p1 p2 : list nat) : list nat :=
  filter (λ i, (i ∉ p1) ∧ (i ∉ p2)) (seq 0 (length items)).

Definition unassigned_total (items : list json) (p1 p2 : list nat) : Z :=
  sum_Z ((λ i, default 0%Z (int_price (items !!! i))) <$> unassigned items p1 p2).

(** The value of a number as a rational (zero for an infinity or NaN). *)
Definition exact_value (n : number) : Q :=
  match value n with
  | Some (Finite q) => q
  | _ => 0%Q
  end.

(** The sum of the prices of the rows at the given indices, as rationals:
    what a total is when no addition rounds. *)
Definition sum_Q (qs : list Q) : Q := foldr Qplus 0%Q qs.

Definition exact_price (item : json) : Q :=
  from_option exact_value 0%Q (price_of item).

Definition exact_sum (items : list json) (selected : list nat) : Q :=
  sum_Q ((λ i, exact_price (items !!! i)) <$> selected).

(** An invoice with the prices 0.1, 0.2 and 0.7. *)
Definition rounding_invoice : list json :=
  [JObj {[ lit "total_price" := JNum (PFloat (decimal 1 (-1))) ]};
   JObj {[ lit "total_price" := JNum (PFloat (decimal 2 (-1))) ]};
   JObj {[ lit "total_price" := JNum (PFloat (decimal 7 (-1))) ]}].

(** Lines 212, 213 and 220-227: the settlement line for two totals. *)
Definition settlement (person1_total person2_total : number) : result event :=
  total_expense ← add person1_total person2_total;
  split_amount ← halve total_expense;
  who_owes person1_total person2_total split_amount.

(** The payer and the amount a settlement line names. *)
Definition payer (e : event) : option person :=
  match e with Owes debtor _ _ => Some debtor | _ => None end.
Definition payee (e : event) : option person :=
  match e with Owes _ creditor _ => Some creditor | _ => None end.
Definition amount (e : event) : option float :=
  match e with Owes _ _ a => Some a | _ => None end.

(** The value of ['line_items'] in the session's invoice, and the number of
    line items when it is a list. *)
Definition line_items_of (st : session) : option json :=
  match invoice_data st with
  | Some (JObj fields) => fields !! lit "line_items"
  | _ => None
  end.

Definition line_count (st : session) : nat :=
  match line_items_of st with
  | Some (JArr items) => length items
  | _ => 0
  end.

(** A row the loop of line 163 gets through: a dict whose price, if it has
    one, is a number that can be written as a float. *)
Definition displayable (item : json) : Prop :=
  match item with
  | JObj fields =>
      is_Ok (format_2f (default (JNum (PFloat (S754_zero false)))
                          (fields !! lit "total_price")))
  | _ => False
  end.

(** A decoder that does not see the whitespace around a text it accepts, as
    [json.loads] does not. *)
Definition ignores_outer_space (loads : pystr → result json) : Prop :=
  ∀ s v, loads s = Ok v → loads (strip s) = Ok v.

(** ** The scenarios of the specification *)

Definition scenario_json : pystr :=
  dq "{'invoice_id':'123','date':'2024-01-05','line_items':[{'item_name':'Widget','total_price':100.0},{'item_name':'Gadget','total_price':50.0}]}".

Definition scenario_page : pystr :=
  lit "--- PAGE 1 ---" ++ nl ++ lit "Invoice #123, 2024-01-05, Widget 100.00, Gadget 50.00".

(** An environment with a key, a one-page document, and a completion client
    that answers [response]. *)
Definition answering (response : pystr) : externals :=
  {| os_getenv := λ name, if bool_decide (name = lit "OPENROUTER_API_KEY")
                          then Some (lit "sk-or-test") else None;
     pdf_load_data := λ _, Ok [scenario_page];
     llm_complete := λ _ _, Ok response;
     json_loads := reference_json_loads |}.



Definition without_key (ext : externals) : externals :=
  {| os_getenv := λ _, None;
     pdf_load_data := pdf_load_data ext;
     llm_complete := llm_complete ext;
     json_loads := json_loads ext |}.

Definition unreadable (ext : externals) : externals :=
  {| os_getenv := os_getenv ext;
     pdf_load_data := λ _, Raise ReaderError;
     llm_complete := llm_complete ext;
     json_loads := json_loads ext |}.

Definition submit (pdf : pystr) : run_input :=
  {| uploaded_file := Some pdf; process_clicked := true;
     p1_box := λ _, None; p2_box := λ _, None |}.

(** The line items of the scenario's invoice. *)
Definition scenario_items : list json :=
  [JObj (<[lit "item_name" := JStr (lit "Widget")]>
           (<[lit "total_price" := JNum (PFloat (decimal 1000 (-1)))]> ∅));
   JObj (<[lit "item_name" := JStr (lit "Gadget")]>
           (<[lit "total_price" := JNum (PFloat (decimal 500 (-1)))]> ∅))].

(** The button is clicked while the box of person 1 in row 0 is ticked. *)
Definition resubmit_ticked : run_input :=
  {| uploaded_file := Some (lit "%PDF"); process_clicked := true;
     p1_box := λ i, if decide (i = 0) then Some true else None;
     p2_box := λ _, None |}.

Definition scenario_ext : externals := answering (wrap_in_fence scenario_json).

(** The session after the scenario's document was processed. *)
Definition scenario_session : session :=
  final (script scenario_ext (submit (lit "%PDF")) initial_session).

(** A response that is no JSON text. *)
Definition prose : pystr := lit "  Sorry, I could not find an invoice in this text. ".

(** The list a person's column leaves after rows [k], ..., [k + n - 1]. *)
Fixpoint sync (box : nat → option bool) (k n : nat) (items : list nat) : list nat :=
  match n with
  | O => items
  | S n => sync box (S k) n
             (update_items (checkbox (box k) (contains k items)) k items)
  end.

(** What every run keeps true of the session. *)
Definition valid_indices (st : session) : Prop :=
  ∀ i, i ∈ person1_items st ∨ i ∈ person2_items st → i < line_count st.

Definition consistent (st : session) : Prop :=
  NoDup (person1_items st) ∧ NoDup (person2_items st) ∧ valid_indices st.

(** Row 0 of the scenario's invoice after one click in each of its boxes. *)
Definition both_assigned : session :=
  toggle scenario_ext Person2 0 (toggle scenario_ext Person1 0 scenario_session).

(** A session whose invoice has a date and nothing else. *)
Definition date_only : session :=
  {| invoice_data := Some (JObj {[ lit "date" := JStr (lit "2024-01-05") ]});
     person1_items := []; person2_items := [] |}.

(** A document page as [extract_text_from_pdf] adds it to the text. *)
Definition page_with_blank_line (doc : pystr) : pystr := doc ++ nl ++ nl.

(** The events that are an [st.error]. *)
Definition is_error (e : event) : bool :=
  match e with StError _ => true | _ => false end.

(** A row that has the key ['total_price']. *)
Definition has_price (item : json) : Prop :=
  match item with
  | JObj fields => is_Some (fields !! lit "total_price")
  | _ => False
  end.

(** A row whose price, if it has one, is a float. *)
Definition float_priced (item : json) : Prop :=
  match item with
  | JObj fields =>
      match fields !! lit "total_price" with
      | Some (JNum (PFloat _)) | None => True
      | _ => False
      end
  | _ => False
  end.

(** A sum of float prices: the int 0 of the empty sum, or a float. *)
Definition float_total (n : number) : Prop := n = PInt 0 ∨ ∃ f, n = PFloat f.

(** What the loop of line 163 shows for a row: name and price, the name
    alone when the price cannot be written, nothing when the row is no dict. *)
Definition row_shown (item : json) : list event :=
  match item with
  | JObj fields =>
      RowName (default (JStr (lit "Unknown item")) (fields !! lit "item_name"))
      :: match format_2f (default (JNum (PFloat (S754_zero false)))
                            (fields !! lit "total_price")) with
         | Ok written => [RowPrice written]
         | Raise _ => []
         end
  | _ => []
  end.

(** The rows whose box, in the column [box] of a person with list [items_p],
    shows as checked in a run. *)
Definition checked_rows (box : nat → option bool) (items_p : list nat) (n : nat)
    : list nat :=
  filter (λ i, checkbox (box i) (contains i items_p) = true) (seq 0 n).

(** A session whose only row has a name and no price. *)
Definition unpriced_session : session :=
  {| invoice_data :=
       Some (JObj {[ lit "line_items"
                     := JArr [JObj {[ lit "item_name" := JStr (lit "Widget") ]}] ]});
     person1_items := []; person2_items := [] |}.

(** The events of lines 211-227. *)
Definition is_summary (e : event) : bool :=
  match e with
  | Metric _ _ | TotalExpense _ | SplitAmount _ | Owes _ _ _ | PerfectlySplit => true
  | _ => false
  end.

(** A session with the int prices 1 and twice 9 * 10 ^ 307: each can be
    written as a float, the sum of the last two cannot. *)
Definition overflow_session : session :=
  {| invoice_data :=
       Some (JObj {[ lit "line_items"
                     := JArr [JObj {[ lit "total_price" := JNum (PInt 1) ]};
                              JObj {[ lit "total_price" := JNum (PInt (9 * 10 ^ 307)) ]};
                              JObj {[ lit "total_price"
                                      := JNum (PInt (9 * 10 ^ 307)) ]}] ]});
     person1_items := []; person2_items := [] |}.

(** The settlement line, lines 220-227. *)
Definition is_settlement (e : event) : bool :=
  match e with
  | Owes _ _ _ | PerfectlySplit => true
  | _ => false
  end.

(** A session whose second row has a text where the price should be. *)
Definition text_price_session : session :=
  {| invoice_data :=
       Some (JObj {[ lit "line_items"
                     := JArr [JObj {[ lit "total_price" := JNum (PInt 100) ]};
                              JObj {[ lit "total_price" := JStr (lit "50.00") ]};
                              JObj {[ lit "total_price" := JNum (PInt 7) ]}] ]});
     person1_items := []; person2_items := [] |}.

(** * The command-line script [main.py]

    The script does what the "Process Invoice" button of [app.py] does, for
    one fixed path, and prints instead of showing: it reads the pages, asks
    the completion client and prints the raw response. *)

Module MainScript.

(** What the script prints and requests. *)
Inductive output :=
| PagesFound (pages : nat)          (* "PDF loaded successfully. Found {n} pages." *)
| LargeWarning (estimated_tokens : Q)  (* "Warning: PDF content is large ..." *)
| Complete (api_key : option pystr) (max_tokens context_window : N)
    (model prompt : pystr)          (* [OpenRouter(...).complete(prompt)] *)
| Printed (s : pystr).              (* [print(response.text)] *)

(** [f"--- PAGE {i+1} ---\n{page_text}\n\n"] (line 43) *)
Definition page_block (i : nat) (doc : pystr) : pystr :=
  let page_text := strip doc in
  lit "--- PAGE " ++ lit (pretty (i + 1)) ++ lit " ---" ++ nl ++ page_text ++ nl ++ nl.

(** The loop of lines 41-43, from page number [i]. *)
Fixpoint add_pages (i : nat) (documents : list pystr) (full_text : pystr) : pystr :=
  match documents with
  | [] => full_text
  | doc :: rest => add_pages (S i) rest (full_text ++ page_block i doc)
  end.

Definition max_safe_tokens : Q := 6000.

(** Lines 28-53: what the function prints, and the text it returns or the
    exception of the reader. *)
Definition extract_text_from_pdf (ext : externals) (pdf_path : pystr)
    : list output * result pystr :=
  match pdf_load_data ext pdf_path with
  | Raise e => ([], Raise e)
  | Ok documents =>
      let full_text := add_pages 0 documents [] in
      let estimated_tokens := (inject_Z (Z.of_nat (length full_text)) / 4)%Q in
      (PagesFound (length documents)
       :: (if Qgt_bool estimated_tokens max_safe_tokens
           then [LargeWarning estimated_tokens] else []),
       Ok full_text)
  end.

(** The f-string of lines 72-91 around [text]. *)
Definition prompt_head : pystr :=
  nl ++ lit "Extract the following information from the invoice text and return it as JSON:"
  ++ nl ++ lit "1. The invoice ID (a unique identifier, often a number)"
  ++ nl ++ lit "2. The date of the invoice"
  ++ nl ++ lit "3. A list of line items, each with:"
  ++ nl ++ lit "   - Item name"
  ++ nl ++ lit "   - Total price"
  ++ nl
  ++ nl ++ lit "Return the data in this format:"
  ++ nl ++ dq "{'invoice_id': 'the_extracted_id',"
  ++ nl ++ dq " 'date': 'YYYY-MM-DD',"
  ++ nl ++ dq " 'line_items': ["
  ++ nl ++ dq "    {'item_name': 'First item', 'total_price': 100.0},"
  ++ nl ++ dq "    {'item_name': 'Second item', 'total_price': 200.0}"
  ++ nl ++ lit "  ]"
  ++ nl ++ lit "}"
  ++ nl
  ++ nl ++ lit "Text:"
  ++ nl.

Definition make_prompt (text : pystr) : pystr := prompt_head ++ text ++ nl.

Definition pdf_path : pystr := lit "./bon_commande.pdf".

Definition max_tokens : N := 2048.
Definition context_window : N := 8192.

(** Lines 55-94. The key goes to the client as [os.getenv] returned it,
    [None] included; [complete] stands for the construction of the client
    and its call, between which the script does nothing that can be seen. *)
Definition script (ext : externals)
    (complete : option pystr → N → N → pystr → pystr → result pystr)
    : list output * option exn :=
  match extract_text_from_pdf ext pdf_path with
  | (out, Raise e) => (out, Some e)
  | (out, Ok text) =>
      let key := os_getenv ext (lit "OPENROUTER_API_KEY") in
      let model := lit "openai/gpt-4o" in
      let prompt := make_prompt text in
      let request := Complete key max_tokens context_window model prompt in
      match complete key max_tokens context_window model prompt with
      | Raise e => (out ++ [request], Some e)
      | Ok response => (out ++ [request; Printed response], None)
      end
  end.

(** The warnings among the printed lines. *)
Definition is_warning (o : output) : bool :=
  match o with LargeWarning _ => true | _ => false end.

End MainScript.


(** * Properties *)

(** ** String methods *)

Example fence_json_codes : fence_json = [96; 96; 96; 106; 115; 111; 110]%N.
Proof. reflexivity. Qed.

Example json_text_fenced :
  json_text (lit "  ```json" ++ [10%N] ++ lit "{}" ++ [10%N] ++ lit "``` ")
  = lit "{}".
Proof. vm_compute. reflexivity. Qed.

Lemma replace_first_unfold old new s :
  replace_first old new s =
  if startswith old s then new ++ drop (length old) s
  else match s with
       | [] => []
       | c :: s' => c :: replace_first old new s'
       end.
Proof. by destruct s. Qed.

Lemma startswith_app p s : startswith p (p ++ s) = true.
Proof. apply bool_decide_eq_true. by exists s. Qed.

Lemma endswith_app p s : endswith p (s ++ p) = true.
Proof. apply bool_decide_eq_true. by exists s. Qed.

(** When the text starts with [old], the leftmost occurrence is the prefix:
    [replace(old, "", 1)] drops it. *)
Lemma replace_first_prefix old new s :
  replace_first old new (old ++ s) = new ++ s.
Proof.
  rewrite replace_first_unfold, startswith_app.
  by rewrite drop_app_length.
Qed.

Lemma drop_last_app (p s : pystr) : drop_last (length p) (s ++ p) = s.
Proof.
  unfold drop_last. rewrite length_app.
  replace (length s + length p - length p) with (length s) by lia.
  apply take_app_length.
Qed.

Lemma lstrip_space c s : isspace c = true → lstrip (c :: s) = lstrip s.
Proof. intros H. simpl. by rewrite H. Qed.

Lemma lstrip_nonspace c s : isspace c = false → lstrip (c :: s) = c :: s.
Proof. intros H. simpl. by rewrite H. Qed.

Lemma rstrip_space c s : isspace c = true → rstrip (s ++ [c]) = rstrip s.
Proof.
  intros H. unfold rstrip. rewrite reverse_snoc. by rewrite lstrip_space.
Qed.

Lemma rstrip_nonspace c s : isspace c = false → rstrip (s ++ [c]) = s ++ [c].
Proof.
  intros H. unfold rstrip. rewrite reverse_snoc, lstrip_nonspace by done.
  by rewrite reverse_cons, reverse_involutive.
Qed.

Lemma rstrip_nil : rstrip [] = [].
Proof. reflexivity. Qed.

(** [lstrip] splits a text into a run of whitespace and a rest that does not
    start with whitespace. *)
Lemma lstrip_split s :
  ∃ w, s = w ++ lstrip s ∧ forallb isspace w = true.
Proof.
  induction s as [|c s (w & Hs & Hw)]; [by exists []|].
  simpl. destruct (isspace c) eqn:Hc.
  - exists (c :: w). simpl. rewrite Hc, Hw. split; [by f_equal|done].
  - by exists [].
Qed.

Lemma lstrip_head s c s' : lstrip s = c :: s' → isspace c = false.
Proof.
  induction s as [|d s IH]; [done|]. simpl.
  destruct (isspace d) eqn:Hd; [done|]. by intros [= -> _].
Qed.

Lemma lstrip_all_space w s : forallb isspace w = true → lstrip (w ++ s) = lstrip s.
Proof.
  induction w as [|c w IH]; [done|]. simpl.
  intros [Hc Hw]%andb_true_iff. rewrite Hc. auto.
Qed.

Lemma forallb_reverse {A} (f : A → bool) l : forallb f (reverse l) = forallb f l.
Proof.
  induction l as [|a l IH]; [done|].
  rewrite reverse_cons, forallb_app. simpl. rewrite IH.
  by destruct (f a), (forallb f l).
Qed.

Lemma rstrip_all_space w s : forallb isspace w = true → rstrip (s ++ w) = rstrip s.
Proof.
  intros Hw. unfold rstrip. rewrite reverse_app.
  by rewrite lstrip_all_space by by rewrite forallb_reverse.
Qed.

Lemma rstrip_split s :
  ∃ w, s = rstrip s ++ w ∧ forallb isspace w = true.
Proof.
  destruct (lstrip_split (reverse s)) as (w & Hs & Hw).
  exists (reverse w). split.
  - unfold rstrip. rewrite <- reverse_app, <- Hs. by rewrite reverse_involutive.
  - by rewrite forallb_reverse.
Qed.

(** Adding more whitespace on the right of a text changes nothing of what
    [lstrip] keeps, except for the whitespace itself. *)
Lemma lstrip_snoc_space s c :
  isspace c = true →
  lstrip (s ++ [c]) = match lstrip s with [] => [] | _ => lstrip s ++ [c] end.
Proof.
  intros Hc. induction s as [|d s IH]; simpl.
  - by rewrite Hc.
  - by destruct (isspace d).
Qed.

Lemma strip_newlines j : strip ([10%N] ++ j ++ [10%N]) = strip j.
Proof.
  unfold strip. simpl. rewrite lstrip_snoc_space by done.
  destruct (lstrip j) eqn:Hj; [done|].
  by rewrite rstrip_space.
Qed.

Lemma strip_wrap_in_fence j : strip (wrap_in_fence j) = wrap_in_fence j.
Proof.
  unfold strip, wrap_in_fence. rewrite fence_json_codes. simpl.
  change fence with ([96; 96]%N ++ [96%N]).
  rewrite !app_comm_cons, !app_assoc. by rewrite rstrip_nonspace.
Qed.

Lemma strip_fences_wrapped body :
  strip_fences (fence_json ++ body ++ fence) = body.
Proof.
  unfold strip_fences. rewrite startswith_app, replace_first_prefix. simpl.
  rewrite endswith_app. apply (drop_last_app fence).
Qed.

(** The repair of a fenced text leaves the text between the fences, stripped. *)
Lemma json_text_wrap_in_fence j : json_text (wrap_in_fence j) = strip j.
Proof.
  unfold json_text. rewrite strip_wrap_in_fence. unfold wrap_in_fence.
  replace (fence_json ++ [10%N] ++ j ++ [10%N] ++ fence)
    with (fence_json ++ ([10%N] ++ j ++ [10%N]) ++ fence)
    by (by rewrite <- !app_assoc).
  rewrite strip_fences_wrapped. apply strip_newlines.
Qed.

(** ** The repair of the response *)

(** C6, as the code has it. The two markers are removed independently of
    each other: a text with neither is unchanged, a text that only starts
    with [```json] loses that marker, a text that only ends with [```] loses
    that one, and a text wrapped in both loses both. *)
Theorem fences_removed_independently (s body : pystr) :
  (startswith fence_json s = false → endswith fence s = false → strip_fences s = s)
  ∧ (s = fence_json ++ body → endswith fence body = false → strip_fences s = body)
  ∧ (startswith fence_json s = false → s = body ++ fence → strip_fences s = body)
  ∧ (s = fence_json ++ body ++ fence → strip_fences s = body).
Proof.
  split_and!.
  - intros H1 H2. unfold strip_fences. by rewrite H1, H2.
  - intros -> H. unfold strip_fences.
    rewrite startswith_app, replace_first_prefix. simpl. by rewrite H.
  - intros H ->. unfold strip_fences.
    rewrite H, endswith_app. apply (drop_last_app fence).
  - intros ->. apply strip_fences_wrapped.
Qed.

(** C6, as the specification has it, fails: a response that carries only
    the opening marker, or only the closing one, does not come out
    unchanged. *)
Lemma lone_fence_is_removed :
  startswith fence_json (fence_json ++ nl ++ lit "{}") = true
  ∧ endswith fence (fence_json ++ nl ++ lit "{}") = false
  ∧ strip_fences (fence_json ++ nl ++ lit "{}") = nl ++ lit "{}"
  ∧ startswith fence_json (lit "{}" ++ nl ++ fence) = false
  ∧ endswith fence (lit "{}" ++ nl ++ fence) = true
  ∧ strip_fences (lit "{}" ++ nl ++ fence) = lit "{}" ++ nl.
Proof. vm_compute. done. Qed.

(** ** The reference decoder *)

Example decode_scenario_1 :
  reference_json_loads
    (dq "{'invoice_id':'123','date':'2024-01-05','line_items':[{'item_name':'Widget','total_price':100.0},{'item_name':'Gadget','total_price':50.0}]}")
  = Ok (JObj (<[lit "invoice_id" := JStr (lit "123")]>
             (<[lit "date" := JStr (lit "2024-01-05")]>
             (<[lit "line_items" :=
                  JArr [JObj (<[lit "item_name" := JStr (lit "Widget")]>
                              (<[lit "total_price"
                                 := JNum (PFloat (decimal 1000 (-1)))]> ∅));
                        JObj (<[lit "item_name" := JStr (lit "Gadget")]>
                              (<[lit "total_price"
                                 := JNum (PFloat (decimal 500 (-1)))]> ∅))]]> ∅)))).
Proof. vm_compute. reflexivity. Qed.

Example decode_numbers :
  reference_json_loads (lit "[-12.50, 3e2, 0, -7, 1.5E-1, true, null, NaN, -Infinity]")
  = Ok (JArr [JNum (PFloat (float_of_decimal true 1250 (-2)));
              JNum (PFloat (decimal 3 2)); JNum (PInt 0); JNum (PInt (-7));
              JNum (PFloat (decimal 15 (-2))); JBool true; JNull;
              JNum (PFloat S754_nan); JNum (PFloat (S754_infinity true))]).
Proof. vm_compute. reflexivity. Qed.

(** The floats of the examples, as binary64 has them. *)
Example decimal_floats :
  decimal 1 (-1) = S754_finite false 7205759403792794 (-56)
  ∧ decimal 1000 (-1) = S754_finite false 7036874417766400 (-46)
  ∧ float_of_int 100 = Ok (decimal 1000 (-1))
  ∧ float_of_int (2 ^ 1024) = Raise OverflowError.
Proof. vm_compute. done. Qed.

Example decode_rejects :
  reference_json_loads (lit "Sorry, I could not read this invoice.")
  = Raise JSONDecodeError
  ∧ reference_json_loads (lit "[1, 2") = Raise JSONDecodeError
  ∧ reference_json_loads (lit "01") = Raise JSONDecodeError
  ∧ reference_json_loads (lit "{} {}") = Raise JSONDecodeError
  ∧ reference_json_loads (lit "") = Raise JSONDecodeError.
Proof. vm_compute. done. Qed.

Example decode_escapes :
  reference_json_loads (dq "'a\n\u00e9\ud83d\ude00'")
  = Ok (JStr [97; 10; 233; 128512]%N).
Proof. vm_compute. reflexivity. Qed.

(** ** The reference decoder and the whitespace around a text *)

Ltac unfold_tests :=
  unfold is_num_char in *; unfold isspace, is_json_ws, is_digit, is_alpha in *.

Ltac tests_to_props :=
  repeat (progress
    rewrite ?orb_true_iff, ?orb_false_iff, ?andb_true_iff, ?andb_false_iff,
      ?N.eqb_eq, ?N.eqb_neq, ?N.leb_le, ?N.leb_gt, ?N.ltb_lt, ?N.ltb_ge in *).

Lemma idle_step_space c st ts :
  isspace c = true → idle_step c = Some (st, ts) → st = Idle ∧ ts = [].
Proof.
  intros Hc. unfold idle_step.
  repeat (case_match; [try by intros [= <- <-]|]); [..|done];
    intros _; exfalso; unfold_tests; tests_to_props; lia.
Qed.

Lemma lex_finish_end_escape acc hi u : lex_finish (end_escape acc hi u) = None.
Proof. unfold end_escape. by repeat case_match. Qed.

(** A whitespace code point that the scanner accepts ends a token and
    starts none. *)
Lemma lex_step_space st c st' ts ts' :
  isspace c = true →
  lex_step st c = Some (st', ts) →
  lex_finish st' = Some ts' →
  lex_finish st = Some (ts ++ ts').
Proof.
  intros Hc Hstep Hfin. destruct st; simpl in Hstep.
  - apply (idle_step_space _ _ _ Hc) in Hstep as [-> ->]. by simplify_eq/=.
  - destruct (c =? 34)%N eqn:E1; [apply N.eqb_eq in E1; by subst|].
    destruct (c =? 92)%N eqn:E2; [apply N.eqb_eq in E2; by subst|].
    destruct (c <? 32)%N; by simplify_eq/=.
  - destruct (c =? 117)%N; [by simplify_eq/=|].
    destruct (escape_char c); by simplify_eq/=.
  - destruct (hex_value c); simplify_eq/=.
    case_bool_decide; [by rewrite lex_finish_end_escape in Hfin | done].
  - destruct (is_num_char c) eqn:Hn.
    { exfalso. unfold_tests. tests_to_props. lia. }
    destruct (bool_decide (acc = [45%N]) && (c =? 73)%N) eqn:Hword.
    { exfalso. apply andb_true_iff in Hword as [_ ->%N.eqb_eq]. done. }
    destruct (parse_number (reverse acc)) as [q|] eqn:Hq; [|done]. simpl in Hstep.
    destruct (idle_step c) as [[st0 ts0]|] eqn:Hi; [|done]. simplify_eq/=.
    apply (idle_step_space _ _ _ Hc) in Hi as [-> ->].
    rewrite Hq. by simplify_eq/=.
  - destruct (is_alpha c) eqn:Hn.
    { exfalso. unfold_tests. tests_to_props. lia. }
    destruct (word_token (reverse acc)) as [t|] eqn:Ht; [|done]. simpl in Hstep.
    destruct (idle_step c) as [[st0 ts0]|] eqn:Hi; [|done]. simplify_eq/=.
    apply (idle_step_space _ _ _ Hc) in Hi as [-> ->].
    rewrite Ht. by simplify_eq/=.
Qed.

Lemma lex_cons st c s ts :
  lex st (c :: s) = Some ts ↔
  ∃ st' t1 rest, lex_step st c = Some (st', t1) ∧ lex st' s = Some rest
                 ∧ ts = t1 ++ rest.
Proof.
  simpl. split.
  - destruct (lex_step st c) as [[st' t1]|]; [|done]. simpl.
    destruct (lex st' s) as [rest|] eqn:Hrest; [|done]. intros [= <-].
    by eexists _, _, _.
  - intros (st' & t1 & rest & -> & H & ->). simpl. by rewrite H.
Qed.

Lemma lex_only_space w st ts :
  forallb isspace w = true → lex st w = Some ts → lex_finish st = Some ts.
Proof.
  revert st ts. induction w as [|c w IH]; intros st ts Hw; [done|].
  simpl in Hw. apply andb_true_iff in Hw as [Hc Hw].
  intros (st' & t1 & rest & Hstep & Hrest & ->)%lex_cons.
  eapply lex_step_space; eauto.
Qed.

Lemma lex_trailing_space s w st ts :
  forallb isspace w = true → lex st (s ++ w) = Some ts → lex st s = Some ts.
Proof.
  intros Hw. revert st ts. induction s as [|c s IH]; intros st ts.
  - by apply lex_only_space.
  - rewrite <- app_comm_cons.
    intros (st' & t1 & rest & Hstep & Hrest & ->)%lex_cons.
    apply lex_cons. eauto 10.
Qed.

Lemma lex_leading_space w s ts :
  forallb isspace w = true → lex Idle (w ++ s) = Some ts → lex Idle s = Some ts.
Proof.
  induction w as [|c w IH]; [done|]. simpl forallb.
  intros [Hc Hw]%andb_true_iff. rewrite <- app_comm_cons.
  intros (st' & t1 & rest & Hstep & Hrest & ->)%lex_cons.
  apply (idle_step_space _ _ _ Hc) in Hstep as [-> ->]. auto.
Qed.

Lemma lex_strip s ts : lex Idle s = Some ts → lex Idle (strip s) = Some ts.
Proof.
  intros H. destruct (lstrip_split s) as (w1 & Hs & Hw1).
  rewrite Hs in H. apply lex_leading_space in H; [|done].
  destruct (rstrip_split (lstrip s)) as (w2 & Hl & Hw2).
  rewrite Hl in H. by apply lex_trailing_space in H.
Qed.

(** The reference decoder reads a text it accepts the same without the
    whitespace around it. *)
Lemma reference_ignores_outer_space : ignores_outer_space reference_json_loads.
Proof.
  intros s v. unfold reference_json_loads, decode.
  destruct (lex Idle s) as [ts|] eqn:Hlex; [|done].
  by rewrite (lex_strip _ _ Hlex).
Qed.

(** C5. For a decoder that, like [json.loads], does not see the whitespace
    around a text it accepts: a text [j] that decodes to [v] still decodes
    to [v] after it is wrapped in a [```json] line and a [```] line and sent
    through the repair of lines 78-84. *)
Theorem fenced_json_parses_alike (ext : externals) (j : pystr) (v : json) :
  ignores_outer_space (json_loads ext) →
  json_loads ext j = Ok v →
  json_loads ext (json_text (wrap_in_fence j)) = Ok v.
Proof. intros Hext Hj. rewrite json_text_wrap_in_fence. by apply Hext. Qed.

Lemma fenced_json_parses_alike_witness :
  ∃ v, json_loads scenario_ext scenario_json = Ok v
       ∧ json_loads scenario_ext (json_text (wrap_in_fence scenario_json)) = Ok v.
Proof.
  eexists. split; [vm_compute; reflexivity|].
  apply (fenced_json_parses_alike scenario_ext scenario_json).
  - apply reference_ignores_outer_space.
  - vm_compute. reflexivity.
Defined.

(** ** [extract_invoice_data] *)




Lemma completion_calls_app evs evs' :
  completion_calls (evs ++ evs') = completion_calls evs + completion_calls evs'.
Proof. unfold completion_calls. by rewrite List.filter_app, length_app. Qed.

Lemma shown_and_then r k :
  shown (and_then r k)
  = shown r ++ match raised r with Some _ => [] | None => shown (k (final r)) end.
Proof. unfold and_then. destruct (raised r); simpl; by rewrite ?app_nil_r. Qed.

Lemma completion_calls_and_then r k :
  completion_calls (shown r) = 0 →
  (∀ st, completion_calls (shown (k st)) = 0) →
  completion_calls (shown (and_then r k)) = 0.
Proof.
  intros Hr Hk. rewrite shown_and_then, completion_calls_app, Hr. simpl.
  destruct (raised r); [done | apply Hk].
Qed.

Lemma row_no_completion inp i item st :
  completion_calls (shown (row inp i item st)) = 0.
Proof. unfold row. by repeat case_match. Qed.

Lemma rows_no_completion inp items : ∀ i st,
  completion_calls (shown (rows inp i items st)) = 0.
Proof.
  induction items as [|item items IH]; intros i st; [done|]. simpl.
  apply completion_calls_and_then; [apply row_no_completion | auto].
Qed.

(** The settlement line is one of the two kinds the code writes. *)
Lemma who_owes_line a b split line :
  who_owes a b split = Ok line →
  line = PerfectlySplit ∨ ∃ debtor written, line = Owes debtor (other debtor) written.
Proof.
  unfold who_owes. destruct (gt a b); [|destruct (gt b a)].
  - destruct (sub a _) as [amount|]; simpl; [|done].
    destruct (to_float amount); simpl; [|done].
    intros [= <-]. right. by eexists Person2, _.
  - destruct (sub b _) as [amount|]; simpl; [|done].
    destruct (to_float amount); simpl; [|done].
    intros [= <-]. right. by eexists Person1, _.
  - intros [= <-]. by left.
Qed.

Lemma summary_no_completion a b : completion_calls (summary a b).1 = 0.
Proof.
  unfold summary. repeat case_match; try done. simpl.
  match goal with H : who_owes _ _ _ = Ok _ |- _ =>
    apply who_owes_line in H as [->|(? & ? & ->)] end; done.
Qed.

(** Only the button handler calls the completion client. *)
Lemma display_no_completion inp st : completion_calls (shown (display inp st)) = 0.
Proof.
  unfold display. repeat case_match; try done.
  apply completion_calls_and_then; [reflexivity|]. intros st'.
  unfold split_interface. destruct (iterate _); [|reflexivity].
  apply completion_calls_and_then; [apply rows_no_completion|].
  intros st''. repeat case_match; try reflexivity.
  apply summary_no_completion.
Qed.

(** C7, as the code has it. When the environment of [app.py] has no key
    (or an empty one), no run calls the completion client, whatever the
    reader does. The key is looked at after the document was read: when the
    reader returns, [extract_invoice_data] shows the missing-key error and
    returns [None], and a run started by the button ends with this error as
    the only thing shown, no stored invoice and two empty lists; when the
    reader raises, its exception leaves the function and no error is
    shown. *)
Theorem missing_key_fails_fast (ext : externals) (inp : run_input)
    (st : session) (pdf_path : pystr) :
  os_getenv ext (lit "OPENROUTER_API_KEY") = None
  ∨ os_getenv ext (lit "OPENROUTER_API_KEY") = Some [] →
  completion_calls (extract_invoice_data ext pdf_path).1 = 0
  ∧ completion_calls (shown (script ext inp st)) = 0
  ∧ (∀ text, extract_text_from_pdf ext pdf_path = Ok text →
       extract_invoice_data ext pdf_path = ([StError ApiKeyNotFound], Ok None)
       ∧ (uploaded_file inp = Some pdf_path → process_clicked inp = true →
          script ext inp st = completed initial_session [StError ApiKeyNotFound]))
  ∧ (∀ e, extract_text_from_pdf ext pdf_path = Raise e →
       extract_invoice_data ext pdf_path = ([], Raise e)
       ∧ (uploaded_file inp = Some pdf_path → process_clicked inp = true →
          script ext inp st = crashed st [] e)).
Proof.
  intros Hkey.
  assert (Hcalls : ∀ path, completion_calls (extract_invoice_data ext path).1 = 0).
  { intros path. unfold extract_invoice_data.
    destruct (extract_text_from_pdf ext path); [|done].
    by destruct Hkey as [-> | ->]. }
  split_and!.
  - apply Hcalls.
  - unfold script. apply completion_calls_and_then; [|apply display_no_completion].
    destruct (uploaded_file inp) as [pdf|]; [|done].
    destruct (process_clicked inp); [|done].
    unfold process_invoice. specialize (Hcalls pdf).
    by destruct (extract_invoice_data ext pdf) as [evs [data|e]].
  - intros text Htext.
    assert (Hextract : extract_invoice_data ext pdf_path
                       = ([StError ApiKeyNotFound], Ok None)).
    { unfold extract_invoice_data. rewrite Htext. by destruct Hkey as [-> | ->]. }
    split; [done|]. intros Hfile Hclick.
    unfold script, process_invoice. by rewrite Hfile, Hclick, Hextract.
  - intros e Hread.
    assert (Hextract : extract_invoice_data ext pdf_path = ([], Raise e)).
    { unfold extract_invoice_data. by rewrite Hread. }
    split; [done|]. intros Hfile Hclick.
    unfold script, process_invoice. by rewrite Hfile, Hclick, Hextract.
Qed.

Lemma missing_key_fails_fast_witness :
  completion_calls
    (shown (script (without_key scenario_ext) (submit (lit "%PDF")) scenario_session))
  = 0
  ∧ script (without_key scenario_ext) (submit (lit "%PDF")) scenario_session
    = completed initial_session [StError ApiKeyNotFound].
Proof.
  destruct (missing_key_fails_fast (without_key scenario_ext) (submit (lit "%PDF"))
              scenario_session (lit "%PDF")) as (_ & Hcalls & Hread & _).
  - left. reflexivity.
  - split; [exact Hcalls|].
    destruct (Hread (scenario_page ++ nl ++ nl)) as [_ Hrun]; [reflexivity|].
    by apply Hrun.
Defined.

(** C7, as the specification has it, fails: with the key absent and a
    document the reader cannot read, the run of [app.py] ends with the
    reader's exception and shows no missing-key error; and [main.py], which
    has no check, hands the absent key to the completion client. *)
Lemma missing_key_not_always_reported :
  os_getenv (unreadable (without_key scenario_ext)) (lit "OPENROUTER_API_KEY") = None
  ∧ extract_invoice_data (unreadable (without_key scenario_ext)) (lit "%PDF")
    = ([], Raise ReaderError)
  ∧ script (unreadable (without_key scenario_ext)) (submit (lit "%PDF")) initial_session
    = crashed initial_session [] ReaderError
  ∧ MainScript.script (without_key scenario_ext) (λ _ _ _ _ _, Ok (lit "{}"))
    = ([MainScript.PagesFound 1;
        MainScript.Complete None 2048 8192 (lit "openai/gpt-4o")
          (MainScript.make_prompt (MainScript.add_pages 0 [scenario_page] []));
        MainScript.Printed (lit "{}")], None).
Proof. vm_compute. done. Qed.

(** ** The button handler *)

(** The handler empties both lists, and stores what the extraction
    returned, whenever the extraction returns: with a decoded response, or
    with [None] after a missing key, a response the decoder rejects or the
    response [null]. When the reader, the completion client or the decoder
    raises anything else, the handler is left at line 117 and the session is
    as it was. *)
Lemma process_resets_when_extraction_returns (ext : externals)
    (pdf_path : pystr) (st : session) :
  match extract_text_from_pdf ext pdf_path with
  | Raise e => final (process_invoice ext pdf_path st) = st
               ∧ raised (process_invoice ext pdf_path st) = Some e
  | Ok text =>
      match os_getenv ext (lit "OPENROUTER_API_KEY") with
      | None | Some [] =>
          final (process_invoice ext pdf_path st) = initial_session
          ∧ raised (process_invoice ext pdf_path st) = None
      | Some key =>
          match llm_complete ext (openrouter key) (make_prompt text) with
          | Raise e => final (process_invoice ext pdf_path st) = st
                       ∧ raised (process_invoice ext pdf_path st) = Some e
          | Ok response =>
              match json_loads ext (json_text response) with
              | Ok JNull | Raise JSONDecodeError =>
                  final (process_invoice ext pdf_path st) = initial_session
                  ∧ raised (process_invoice ext pdf_path st) = None
              | Ok data =>
                  final (process_invoice ext pdf_path st)
                  = {| invoice_data := Some data;
                       person1_items := []; person2_items := [] |}
                  ∧ raised (process_invoice ext pdf_path st) = None
              | Raise e =>
                  final (process_invoice ext pdf_path st) = st
                  ∧ raised (process_invoice ext pdf_path st) = Some e
              end
          end
      end
  end.
Proof.
  unfold process_invoice, extract_invoice_data.
  destruct (extract_text_from_pdf ext pdf_path) as [text|e]; [|done].
  destruct (os_getenv ext _) as [[|c key]|]; [done| |done].
  destruct (llm_complete ext _ _) as [response|e]; [|done].
  destruct (json_loads ext _) as [[]|[]]; done.
Qed.

(** A document the reader cannot read is submitted while row 0 is assigned
    to person 1; after the run the assignment is still there. *)
Lemma failed_submission_keeps_assignment :
  person1_items (toggle scenario_ext Person1 0 scenario_session) = [0]
  ∧ raised (script (unreadable scenario_ext) (submit (lit "%PDF"))
              (toggle scenario_ext Person1 0 scenario_session)) = Some ReaderError
  ∧ person1_items
      (final (script (unreadable scenario_ext) (submit (lit "%PDF"))
                (toggle scenario_ext Person1 0 scenario_session))) = [0].
Proof. vm_compute. done. Qed.

(** C9. The reset of lines 120-121 does not last to the end of the run in
    which it is made. Row 0 is assigned to person 1 and its box is ticked;
    a new document is submitted and its extraction succeeds. The handler
    empties both lists, as the comment of line 119 says it does; the loop
    of line 163, in the same run, finds the box of row 0 still ticked and
    puts index 0 back into the list of person 1: after the processing
    action the allocation is not empty. *)
Lemma reset_undone_by_ticked_box :
  person1_items (toggle scenario_ext Person1 0 scenario_session) = [0]
  ∧ person1_items
      (final (process_invoice scenario_ext (lit "%PDF")
                (toggle scenario_ext Person1 0 scenario_session))) = []
  ∧ raised (script scenario_ext resubmit_ticked
              (toggle scenario_ext Person1 0 scenario_session)) = None
  ∧ person1_items
      (final (script scenario_ext resubmit_ticked
                (toggle scenario_ext Person1 0 scenario_session))) = [0].
Proof. vm_compute. done. Qed.

(** ** The assignment lists *)

Lemma contains_true i items : contains i items = true ↔ i ∈ items.
Proof. apply bool_decide_eq_true. Qed.

Lemma contains_false i items : contains i items = false ↔ i ∉ items.
Proof. apply bool_decide_eq_false. Qed.

Lemma elem_of_remove j i items : j ∈ remove i items → j ∈ items.
Proof.
  induction items as [|x items IH]; [done|]. simpl.
  case_decide; rewrite ?elem_of_cons; intuition congruence.
Qed.

Lemma elem_of_remove_ne j i items : j ≠ i → j ∈ items → j ∈ remove i items.
Proof.
  intros Hne. induction items as [|x items IH]; [done|]. simpl.
  case_decide; rewrite ?elem_of_cons; intuition congruence.
Qed.

Lemma NoDup_remove i items : NoDup items → NoDup (remove i items).
Proof.
  induction 1 as [|x items Hx Hnd IH]; simpl; [constructor|].
  case_decide; [done|]. constructor; [|done].
  intros ?%elem_of_remove. done.
Qed.

Lemma not_elem_of_remove i items : NoDup items → i ∉ remove i items.
Proof.
  induction 1 as [|x items Hx Hnd IH]; simpl; [by intros ?%elem_of_nil|].
  case_decide; [by subst|]. rewrite elem_of_cons. intuition congruence.
Qed.

Lemma update_items_cases checked i items :
  update_items checked i items
  = if checked then (if contains i items then items else items ++ [i])
    else (if contains i items then remove i items else items).
Proof. unfold update_items. by destruct checked, (contains i items). Qed.

(** A box that shows what the list says changes nothing. *)
Lemma update_items_same i items : update_items (contains i items) i items = items.
Proof. rewrite update_items_cases. by destruct (contains i items) eqn:H; rewrite ?H. Qed.

Lemma update_items_flip i items :
  update_items (negb (contains i items)) i items
  = if contains i items then remove i items else items ++ [i].
Proof. rewrite update_items_cases. by destruct (contains i items) eqn:H; simpl; rewrite ?H. Qed.

Lemma elem_of_update_items_inv j checked i items :
  j ∈ update_items checked i items → j = i ∨ j ∈ items.
Proof.
  rewrite update_items_cases.
  destruct checked, (contains i items); auto.
  - rewrite elem_of_app, list_elem_of_singleton. intuition congruence.
  - intros ?%elem_of_remove. auto.
Qed.

Lemma NoDup_update_items checked i items :
  NoDup items → NoDup (update_items checked i items).
Proof.
  intros Hnd. rewrite update_items_cases.
  destruct checked, (contains i items) eqn:Hi; try done.
  - apply list.NoDup_app. split_and!; [done| |apply NoDup_singleton].
    apply contains_false in Hi. by intros x Hx ->%list_elem_of_singleton.
  - by apply NoDup_remove.
Qed.

(** After the update, the row is in the list exactly when its box is checked. *)
Lemma elem_of_update_items checked i items :
  NoDup items → i ∈ update_items checked i items ↔ checked = true.
Proof.
  intros Hnd. rewrite update_items_cases.
  destruct checked, (contains i items) eqn:Hi.
  - apply contains_true in Hi. done.
  - rewrite elem_of_app, list_elem_of_singleton. intuition congruence.
  - split; [|done]. by intros ?%not_elem_of_remove.
  - apply contains_false in Hi. done.
Qed.

Lemma elem_of_update_items_ne j checked i items :
  j ≠ i → j ∈ update_items checked i items ↔ j ∈ items.
Proof.
  intros Hne. rewrite update_items_cases.
  destruct checked, (contains i items); try done.
  - rewrite elem_of_app, list_elem_of_singleton. intuition congruence.
  - split; [apply elem_of_remove | by apply elem_of_remove_ne].
Qed.

Lemma sync_untouched box k n items :
  (∀ j, k ≤ j < k + n → box j = None) → sync box k n items = items.
Proof.
  revert k items. induction n as [|n IH]; intros k items Hbox; [done|]. simpl.
  rewrite Hbox by lia. simpl. rewrite update_items_same.
  apply IH. intros j Hj. apply Hbox. lia.
Qed.

(** When one box only differs from its list, that row only is updated. *)
Lemma sync_single (b : bool) i k n items :
  k ≤ i < k + n →
  sync (λ j, if decide (j = i) then Some b else None) k n items
  = update_items b i items.
Proof.
  revert k items. induction n as [|n IH]; intros k items Hi; [lia|]. simpl.
  case_decide as Hk.
  - subst. simpl. apply sync_untouched. intros j Hj. case_decide; [lia|done].
  - simpl. rewrite update_items_same. apply IH. lia.
Qed.

Lemma NoDup_sync box k n items : NoDup items → NoDup (sync box k n items).
Proof.
  revert k items. induction n as [|n IH]; intros k items Hnd; [done|]. simpl.
  by apply IH, NoDup_update_items.
Qed.

Lemma elem_of_sync_inv box j k n items :
  j ∈ sync box k n items → j ∈ items ∨ k ≤ j < k + n.
Proof.
  revert k items. induction n as [|n IH]; intros k items; simpl; [auto|].
  intros [[->|?]%elem_of_update_items_inv|?]%IH; [right; lia | auto | right; lia].
Qed.

(** ** The loop over the rows *)

Lemma final_and_then r k :
  (∀ st, final (k st) = st) → final (and_then r k) = final r.
Proof. intros Hk. unfold and_then. destruct (raised r); simpl; auto. Qed.

Lemma row_displayable inp i item st :
  displayable item →
  final (row inp i item st)
  = {| invoice_data := invoice_data st;
       person1_items := sync (p1_box inp) i 1 (person1_items st);
       person2_items := sync (p2_box inp) i 1 (person2_items st) |}
  ∧ raised (row inp i item st) = None.
Proof.
  destruct item; try done. simpl. intros [q Hq]. by rewrite Hq.
Qed.

Lemma row_not_displayable inp i item st :
  ¬ displayable item →
  final (row inp i item st) = st ∧ is_Some (raised (row inp i item st)).
Proof.
  destruct item; try by (intros _; split; [|eexists]).
  simpl. intros Hq. destruct (format_2f _) eqn:E.
  - destruct Hq. by eexists.
  - split; [done|by eexists].
Qed.

Global Instance displayable_dec item : Decision (displayable item).
Proof. destruct item; simpl; apply _. Defined.

Lemma sync_S box k n items :
  sync box k (S n) items = sync box (S k) n (sync box k 1 items).
Proof. done. Qed.

(** The loop gets through a prefix of displayable rows, all of them when no
    row raises, and leaves each list as its column of boxes makes it. *)
Lemma rows_final inp items : ∀ k st,
  ∃ m, m ≤ length items
       ∧ Forall displayable (take m items)
       ∧ final (rows inp k items st)
         = {| invoice_data := invoice_data st;
              person1_items := sync (p1_box inp) k m (person1_items st);
              person2_items := sync (p2_box inp) k m (person2_items st) |}
       ∧ (Forall displayable items →
            m = length items ∧ raised (rows inp k items st) = None).
Proof.
  induction items as [|item items IH]; intros k st.
  { exists 0. split_and!; [done|done|by destruct st|done]. }
  simpl. destruct (decide (displayable item)) as [Hd|Hd].
  - destruct (row_displayable inp k item st Hd) as [Hfin Hraised].
    destruct (IH (S k) (final (row inp k item st))) as (m & Hm & Hpre & Hrows & Hall).
    exists (S m). unfold and_then. rewrite Hraised. simpl.
    split_and!; [lia | by constructor | |].
    + rewrite Hrows, Hfin. simpl. done.
    + intros [_ Hrest]%Forall_cons_1. destruct (Hall Hrest) as [-> ?]. done.
  - destruct (row_not_displayable inp k item st Hd) as [Hfin [e He]].
    exists 0. unfold and_then. rewrite He.
    split_and!; [lia | done | by destruct st | ].
    by intros [? _]%Forall_cons_1.
Qed.

Lemma sync_0 box k items : sync box k 0 items = items.
Proof. done. Qed.

Lemma session_eta st :
  {| invoice_data := invoice_data st; person1_items := person1_items st;
     person2_items := person2_items st |} = st.
Proof. by destruct st. Qed.

(** Rows of a text or of a dict are texts: the loop stops at the first. *)
Lemma no_displayable_prefix m (items : list json) :
  Forall (λ item, ¬ displayable item) items →
  Forall displayable (take m items) → take m items = [].
Proof.
  destruct m, items as [|item items]; try done. simpl.
  intros [Hn _]%Forall_cons_1 [Hd _]%Forall_cons_1. done.
Qed.

(** The interface changes the lists only by going through rows of a list
    of line items. *)
Lemma split_interface_final inp line_items st :
  ∃ m, m ≤ match line_items with JArr items => length items | _ => 0 end
       ∧ final (split_interface inp line_items st)
         = {| invoice_data := invoice_data st;
              person1_items := sync (p1_box inp) 0 m (person1_items st);
              person2_items := sync (p2_box inp) 0 m (person2_items st) |}.
Proof.
  assert (Hkeep : ∀ items,
    final (and_then (rows inp 0 items st) (λ st,
        match person_total line_items (person1_items st) with
        | Raise e => crashed st [] e
        | Ok person1_total =>
            match person_total line_items (person2_items st) with
            | Raise e => crashed st [] e
            | Ok person2_total =>
                {| final := st;
                   shown := (summary person1_total person2_total).1;
                   raised := (summary person1_total person2_total).2 |}
            end
        end)) = final (rows inp 0 items st)).
  { intros items. apply final_and_then. intros st'. by repeat case_match. }
  assert (Hstop : ∀ items, Forall (λ item, ¬ displayable item) items →
    final (rows inp 0 items st) = st).
  { intros items Hno.
    destruct (rows_final inp items 0 st) as (m & Hm & Hpre & -> & _).
    apply (no_displayable_prefix _ _ Hno) in Hpre.
    destruct m; [apply session_eta|].
    destruct items; [simpl in Hm; lia | done]. }
  unfold split_interface. destruct line_items; simpl;
    try (exists 0; split; [lia | by destruct st]).
  - exists 0. split; [lia|]. rewrite Hkeep, Hstop; [by destruct st|].
    apply Forall_fmap, Forall_true. by intros ? [].
  - rewrite Hkeep. destruct (rows_final inp items 0 st) as (m & Hm & _ & -> & _).
    by exists m.
  - exists 0. split; [lia|]. rewrite Hkeep, Hstop; [by destruct st|].
    apply Forall_fmap, Forall_true. by intros ? [].
Qed.

Lemma display_final inp st :
  ∃ m, m ≤ line_count st
       ∧ final (display inp st)
         = {| invoice_data := invoice_data st;
              person1_items := sync (p1_box inp) 0 m (person1_items st);
              person2_items := sync (p2_box inp) 0 m (person2_items st) |}.
Proof.
  unfold display, line_count, line_items_of.
  destruct (invoice_data st) as [data|] eqn:Hdata;
    [|exists 0; split; [lia | by destruct st; simplify_eq/=]].
  destruct (negb (truthy data));
    [exists 0; split; [lia | by destruct st; simplify_eq/=]|].
  destruct data; try (exists 0; split; [lia | by destruct st; simplify_eq/=]).
  destruct (fields !! lit "line_items") as [line_items|];
    [|exists 0; split; [lia | by destruct st; simplify_eq/=]].
  destruct (truthy line_items);
    [|exists 0; split; [lia | by destruct st; simplify_eq/=]].
  unfold and_then. simpl.
  destruct (split_interface_final inp line_items st) as (m & Hm & ->).
  exists m. by rewrite Hdata.
Qed.

(** ** What every run keeps true *)

Lemma consistent_initial : consistent initial_session.
Proof.
  split_and!; [constructor | constructor |].
  intros i [H|H]; by apply elem_of_nil in H.
Qed.

Lemma consistent_reset data :
  consistent {| invoice_data := data; person1_items := []; person2_items := [] |}.
Proof.
  split_and!; [constructor | constructor |].
  intros i [H|H]; by apply elem_of_nil in H.
Qed.

Lemma consistent_process_invoice ext pdf_path st :
  consistent st → consistent (final (process_invoice ext pdf_path st)).
Proof.
  intros Hst. unfold process_invoice.
  destruct (extract_invoice_data ext pdf_path) as [evs [data|e]]; [|done].
  apply consistent_reset.
Qed.

Lemma consistent_display inp st :
  consistent st → consistent (final (display inp st)).
Proof.
  intros (Hnd1 & Hnd2 & Hvalid).
  destruct (display_final inp st) as (m & Hm & ->).
  split_and!; simpl; [by apply NoDup_sync | by apply NoDup_sync |].
  intros i. unfold line_count, line_items_of. simpl.
  fold (line_items_of st). fold (line_count st).
  intros [[H|H]%elem_of_sync_inv|[H|H]%elem_of_sync_inv];
    try lia; apply Hvalid; auto.
Qed.

Lemma final_script ext inp st :
  final (script ext inp st)
  = match uploaded_file inp with
    | Some pdf =>
        if process_clicked inp
        then match raised (process_invoice ext pdf st) with
             | Some _ => final (process_invoice ext pdf st)
             | None => final (display inp (final (process_invoice ext pdf st)))
             end
        else final (display inp st)
    | None => final (display inp st)
    end.
Proof.
  unfold script, and_then.
  destruct (uploaded_file inp); [|done].
  destruct (process_clicked inp); [|done].
  by destruct (raised _).
Qed.

Lemma consistent_script ext inp st :
  consistent st → consistent (final (script ext inp st)).
Proof.
  intros Hst. rewrite final_script.
  repeat case_match;
    auto using consistent_display, consistent_process_invoice.
Qed.

Lemma consistent_after_runs runs : ∀ st,
  consistent st → consistent (after_runs runs st).
Proof.
  induction runs as [|[ext inp] runs IH]; intros st Hst; [done|].
  apply IH. by apply consistent_script.
Qed.

Lemma sum_prices_in_range line_items selected : ∀ acc,
  (∀ i, i ∈ selected →
     i < match line_items with JArr items => length items | _ => 0 end) →
  sum_prices line_items selected acc ≠ Raise IndexError.
Proof.
  induction selected as [|i selected IH]; intros acc Hsel; [done|]. simpl.
  assert (Hi := Hsel i (list_elem_of_here _ _)).
  destruct line_items; try lia. simpl.
  destruct (lookup_lt_is_Some_2 items i Hi) as [item ->].
  destruct item; try done. simpl.
  destruct (fields !! lit "total_price") as [v|]; [|done].
  destruct (as_number v) as [price|]; [|done].
  destruct (add acc price) as [acc'|e] eqn:Hadd.
  - apply IH. intros j Hj. apply Hsel. by apply list_elem_of_further.
  - intros [= ->]. unfold add in Hadd.
    destruct acc, price; simpl in Hadd; try done;
      unfold float_of_int, nearest_float in Hadd;
      repeat case_match; simplify_eq/=.
Qed.

(** C10. After any sequence of runs from the initial session, with any
    collaborators and any user input, every index in either list is smaller
    than the number of line items of the stored invoice, and the two sums of
    lines 197-200 do not raise [IndexError]. *)
Theorem indices_stay_valid (runs : list (externals * run_input)) :
  valid_indices (after_runs runs initial_session)
  ∧ ∀ line_items,
      line_items_of (after_runs runs initial_session) = Some line_items →
      person_total line_items (person1_items (after_runs runs initial_session))
        ≠ Raise IndexError
      ∧ person_total line_items (person2_items (after_runs runs initial_session))
        ≠ Raise IndexError.
Proof.
  destruct (consistent_after_runs runs _ consistent_initial) as (_ & _ & Hvalid).
  split; [done|]. intros line_items Hline.
  unfold valid_indices, line_count in Hvalid. rewrite Hline in Hvalid.
  split; apply sum_prices_in_range; intros i Hi; apply Hvalid; auto.
Qed.

(** ** Toggles *)

Lemma display_displayable inp st items :
  line_items_of st = Some (JArr items) →
  items ≠ [] →
  Forall displayable items →
  final (display inp st)
  = {| invoice_data := invoice_data st;
       person1_items := sync (p1_box inp) 0 (length items) (person1_items st);
       person2_items := sync (p2_box inp) 0 (length items) (person2_items st) |}.
Proof.
  unfold line_items_of, display.
  destruct (invoice_data st) as [[| | | | |fields]|] eqn:Hdata; try done.
  intros Hline Hne Hall.
  assert (truthy (JObj fields) = true) as ->.
  { simpl. apply negb_true_iff, bool_decide_eq_false. by intros ->. }
  simpl. rewrite Hline.
  assert (truthy (JArr items) = true) as ->.
  { simpl. by apply negb_true_iff, bool_decide_eq_false. }
  unfold and_then at 1. simpl. unfold split_interface. simpl.
  rewrite final_and_then by (intros st'; by repeat case_match).
  destruct (rows_final inp items 0 st) as (m & _ & _ & -> & Hm).
  destruct (Hm Hall) as [-> _]. by rewrite Hdata.
Qed.

(** ** Each list mirrors its own column of boxes *)

Lemma contains_update_items_ne j checked i items :
  j ≠ i → contains j (update_items checked i items) = contains j items.
Proof.
  intros Hne. unfold contains. apply bool_decide_ext.
  by apply elem_of_update_items_ne.
Qed.

Lemma elem_of_sync_outside box j k n items :
  j < k ∨ k + n ≤ j → j ∈ sync box k n items ↔ j ∈ items.
Proof.
  revert k items. induction n as [|n IH]; intros k items Hj; [done|]. simpl.
  rewrite IH by lia. apply elem_of_update_items_ne. lia.
Qed.

Lemma elem_of_sync box j k n items :
  NoDup items → k ≤ j < k + n →
  j ∈ sync box k n items ↔ checkbox (box j) (contains j items) = true.
Proof.
  revert k items. induction n as [|n IH]; intros k items Hnd Hj; [lia|]. simpl.
  destruct (decide (j = k)) as [->|Hne].
  - rewrite elem_of_sync_outside by lia. by apply elem_of_update_items.
  - rewrite IH by (by apply NoDup_update_items || lia).
    by rewrite contains_update_items_ne.
Qed.

(** After a run that got through all rows, a row is in a person's list
    exactly when that person's box of the row is checked, whatever the box
    of the other person shows. *)
Lemma display_mirrors_boxes inp st items i :
  line_items_of st = Some (JArr items) →
  Forall displayable items →
  NoDup (person1_items st) → NoDup (person2_items st) →
  i < length items →
  (i ∈ person1_items (final (display inp st))
     ↔ checkbox (p1_box inp i) (contains i (person1_items st)) = true)
  ∧ (i ∈ person2_items (final (display inp st))
     ↔ checkbox (p2_box inp i) (contains i (person2_items st)) = true).
Proof.
  intros Hline Hall Hnd1 Hnd2 Hi.
  assert (Hne : items ≠ []) by (intros ->; simpl in Hi; lia).
  rewrite (display_displayable _ _ _ Hline Hne Hall). simpl.
  split; apply elem_of_sync; (done || lia).
Qed.

(** C1, as the code has it. In a session whose rows all display, a click on
    the box of [who] in row [i] puts [i] into the list of [who] when it was
    not there and takes it out when it was; nothing else changes in that
    list, and the list of the other person is as it was (so that an index
    can be in both lists). *)
Theorem toggle_changes_own_list_only (ext : externals) (who : person) (i : nat)
    (st : session) (items : list json) :
  line_items_of st = Some (JArr items) →
  Forall displayable items →
  i < length items →
  NoDup (items_of who st) →
  items_of who (toggle ext who i st)
    = (if contains i (items_of who st) then remove i (items_of who st)
       else items_of who st ++ [i])
  ∧ (i ∈ items_of who (toggle ext who i st) ↔ i ∉ items_of who st)
  ∧ (∀ j, j ≠ i → j ∈ items_of who (toggle ext who i st) ↔ j ∈ items_of who st)
  ∧ items_of (other who) (toggle ext who i st) = items_of (other who) st
  ∧ NoDup (items_of who (toggle ext who i st))
  ∧ line_items_of (toggle ext who i st) = line_items_of st.
Proof.
  intros Hline Hall Hi Hnd.
  assert (Hne : items ≠ []) by (intros ->; simpl in Hi; lia).
  assert (Hfin : toggle ext who i st
    = {| invoice_data := invoice_data st;
         person1_items := match who with
                          | Person1 => update_items (negb (contains i (person1_items st))) i
                                         (person1_items st)
                          | Person2 => person1_items st
                          end;
         person2_items := match who with
                          | Person2 => update_items (negb (contains i (person2_items st))) i
                                         (person2_items st)
                          | Person1 => person2_items st
                          end |}).
  { unfold toggle. rewrite final_script. simpl.
    rewrite (display_displayable _ _ _ Hline Hne Hall).
    destruct who; simpl; f_equal;
      first [ apply sync_single; lia | by apply sync_untouched ]. }
  assert (Hown : items_of who (toggle ext who i st)
                 = update_items (negb (contains i (items_of who st))) i (items_of who st)).
  { rewrite Hfin. by destruct who. }
  split_and!.
  - by rewrite Hown, update_items_flip.
  - rewrite Hown, elem_of_update_items by done.
    rewrite negb_true_iff. apply contains_false.
  - intros j Hj. rewrite Hown. by apply elem_of_update_items_ne.
  - rewrite Hfin. by destruct who.
  - rewrite Hown. by apply NoDup_update_items.
  - rewrite Hfin. by destruct who.
Qed.

Lemma toggle_changes_own_list_only_witness :
  items_of Person2 (toggle scenario_ext Person2 0 (toggle scenario_ext Person1 0 scenario_session))
    = [0]
  ∧ items_of Person1 (toggle scenario_ext Person2 0 (toggle scenario_ext Person1 0 scenario_session))
    = [0].
Proof.
  destruct (toggle_changes_own_list_only scenario_ext Person2 0
              (toggle scenario_ext Person1 0 scenario_session)
              [JObj (<[lit "item_name" := JStr (lit "Widget")]>
                       (<[lit "total_price" := JNum (PFloat (decimal 1000 (-1)))]> ∅));
               JObj (<[lit "item_name" := JStr (lit "Gadget")]>
                       (<[lit "total_price" := JNum (PFloat (decimal 500 (-1)))]> ∅))])
    as (Hown & _ & _ & Hother & _).
  - vm_compute. reflexivity.
  - repeat constructor; vm_compute; eauto.
  - simpl. lia.
  - vm_compute. constructor.
  - split; [exact Hown | exact Hother].
Defined.

(** C1, as the specification has it, fails: after a click in each of the
    two boxes of row 0, index 0 is in both lists. *)
Lemma index_assigned_to_both :
  person1_items both_assigned = [0] ∧ person2_items both_assigned = [0].
Proof. by vm_compute. Qed.

(** ** Totals *)

Lemma sum_Z_perm zs zs' : zs ≡ₚ zs' → sum_Z zs = sum_Z zs'.
Proof.
  induction 1 as [|z zs zs' _ IH|z z' zs|zs zs' zs'' _ IH1 _ IH2]; simpl; lia.
Qed.

(** Over rows with int prices the sum is computed, exactly. *)
Lemma sum_prices_int items selected : ∀ acc,
  Forall (λ item, is_Some (int_price item)) items →
  (∀ i, i ∈ selected → i < length items) →
  sum_prices (JArr items) selected (PInt acc)
  = Ok (PInt (acc + sum_Z ((λ i, default 0%Z (int_price (items !!! i))) <$> selected))).
Proof.
  induction selected as [|i selected IH]; intros acc Hall Hrange.
  - simpl. by rewrite Z.add_0_r.
  - destruct (lookup_lt_is_Some_2 items i (Hrange i (list_elem_of_here _ _)))
      as [item Hitem].
    destruct (proj1 (Forall_lookup _ _) Hall i item Hitem) as [z Hz].
    rewrite fmap_cons. simpl sum_Z.
    rewrite (list_lookup_total_correct _ _ _ Hitem), Hz. simpl.
    rewrite Hitem. unfold int_price, price_of in Hz.
    destruct item as [| | | | |fields]; try done. simpl.
    destruct (fields !! lit "total_price") as [v|]; [|done]. simpl in *.
    destruct (as_number v) as [[z'|f]|]; simplify_eq/=.
    rewrite IH by (done || intros j Hj; apply Hrange; by apply list_elem_of_further).
    do 2 f_equal. lia.
Qed.

Lemma selected_perm (selected : list nat) n :
  NoDup selected → (∀ i, i ∈ selected → i < n) →
  selected ≡ₚ filter (λ i, i ∈ selected) (seq 0 n).
Proof.
  intros Hnd Hrange. apply NoDup_Permutation; [done| |].
  - apply NoDup_filter, NoDup_seq.
  - intros i. rewrite list_elem_of_filter, elem_of_seq.
    split; [|tauto]. intros Hi. specialize (Hrange i Hi). split; [done|lia].
Qed.

(** A sum over indices splits into the part of person 1, the part of
    person 2 and the part of nobody, when nobody's index is counted twice. *)
Lemma sum_Z_three_way (f : nat → Z) (p1 p2 l : list nat) :
  (∀ i, i ∈ p1 → i ∉ p2) →
  (sum_Z (f <$> l)
   = sum_Z (f <$> filter (λ i, i ∈ p1) l)
     + sum_Z (f <$> filter (λ i, i ∈ p2) l)
     + sum_Z (f <$> filter (λ i, (i ∉ p1) ∧ (i ∉ p2)) l))%Z.
Proof.
  intros Hdisj. induction l as [|x l IH]; [done|].
  rewrite !filter_cons.
  destruct (decide (x ∈ p1)) as [H1|H1], (decide (x ∈ p2)) as [H2|H2];
    [by destruct (Hdisj x H1)|..];
    (destruct (decide ((x ∉ p1) ∧ (x ∉ p2))) as [H3|H3]; [try tauto|try tauto]);
    rewrite ?fmap_cons; simpl sum_Z; rewrite IH; lia.
Qed.

Lemma sum_Q_perm qs qs' : qs ≡ₚ qs' → (sum_Q qs == sum_Q qs')%Q.
Proof.
  induction 1 as [|q qs qs' _ IH|q q' qs|qs qs' qs'' _ IH1 _ IH2]; simpl.
  - reflexivity.
  - by rewrite IH.
  - ring.
  - by rewrite IH1.
Qed.

Lemma sum_Q_three_way (f : nat → Q) (p1 p2 l : list nat) :
  (∀ i, i ∈ p1 → i ∉ p2) →
  (sum_Q (f <$> l)
   == sum_Q (f <$> filter (λ i, i ∈ p1) l)
      + sum_Q (f <$> filter (λ i, i ∈ p2) l)
      + sum_Q (f <$> filter (λ i, (i ∉ p1) ∧ (i ∉ p2)) l))%Q.
Proof.
  intros Hdisj. induction l as [|x l IH]; [simpl; ring|].
  rewrite !filter_cons.
  destruct (decide (x ∈ p1)) as [H1|H1], (decide (x ∈ p2)) as [H2|H2];
    [by destruct (Hdisj x H1)|..];
    (destruct (decide ((x ∉ p1) ∧ (x ∉ p2))) as [H3|H3]; [try tauto|try tauto]);
    rewrite ?fmap_cons; simpl sum_Q; rewrite IH; ring.
Qed.

(** The exact sum over a list of indices is the exact sum over the rows the
    list selects, in the order of the rows. *)
Lemma exact_sum_selected items selected :
  NoDup selected → (∀ i, i ∈ selected → i < length items) →
  (exact_sum items selected
   == sum_Q ((λ i, exact_price (items !!! i))
               <$> filter (λ i, i ∈ selected) (seq 0 (length items))))%Q.
Proof.
  intros Hnd Hrange. unfold exact_sum.
  apply sum_Q_perm, fmap_Permutation, selected_perm; done.
Qed.

Lemma fmap_lookup_total_seq {B} (f : json → B) (items : list json) :
  (λ i, f (items !!! i)) <$> seq 0 (length items) = f <$> items.
Proof.
  induction items as [|item items IH] using rev_ind; [done|].
  rewrite length_app. simpl length. rewrite Nat.add_1_r, seq_S, !fmap_app.
  simpl. f_equal.
  - rewrite <- IH. apply list_fmap_ext. intros k i Hk.
    apply lookup_seq in Hk as [-> Hk]. simpl.
    by rewrite lookup_total_app_l.
  - by rewrite list_lookup_total_middle.
Qed.

(** A total over rows with int prices is the sum of the prices of the rows
    of the invoice whose index is in the list. *)
Lemma person_total_int items selected :
  Forall (λ item, is_Some (int_price item)) items →
  NoDup selected →
  (∀ i, i ∈ selected → i < length items) →
  person_total (JArr items) selected
  = Ok (PInt (sum_Z ((λ i, default 0%Z (int_price (items !!! i)))
                       <$> filter (λ i, i ∈ selected) (seq 0 (length items))))).
Proof.
  intros Hall Hnd Hrange. unfold person_total.
  rewrite (sum_prices_int _ _ _ Hall Hrange). do 2 f_equal. simpl.
  apply sum_Z_perm, fmap_Permutation. by apply selected_perm.
Qed.

(** C2, as the code has it. When no index is in both lists (nor twice in a
    list, nor out of range, as in every session the code reaches): if every
    price is an int, which Python adds exactly, the two totals are computed,
    and with the prices of the unassigned rows they add up to the sum of all
    prices; and whatever numbers the prices are, two totals that are the
    exact sums of their rows' prices, no addition having rounded, add up
    with the prices of the unassigned rows to the sum of all prices. *)
Theorem totals_partition_invoice (items : list json) (p1 p2 : list nat) :
  NoDup p1 → NoDup p2 →
  (∀ i, i ∈ p1 → i ∉ p2) →
  (∀ i, i ∈ p1 ∨ i ∈ p2 → i < length items) →
  (Forall (λ item, is_Some (int_price item)) items →
   ∃ a b,
     person_total (JArr items) p1 = Ok (PInt a)
     ∧ person_total (JArr items) p2 = Ok (PInt b)
     ∧ (a + b + unassigned_total items p1 p2 = invoice_total items)%Z)
  ∧ (∀ a b,
       person_total (JArr items) p1 = Ok a →
       person_total (JArr items) p2 = Ok b →
       (exact_value a == exact_sum items p1)%Q →
       (exact_value b == exact_sum items p2)%Q →
       (exact_value a + exact_value b + exact_sum items (unassigned items p1 p2)
        == exact_sum items (seq 0 (length items)))%Q).
Proof.
  intros Hnd1 Hnd2 Hdisj Hrange. split.
  - intros Hall. eexists _, _. split_and!.
    + apply person_total_int; auto.
    + apply person_total_int; auto.
    + unfold invoice_total, unassigned_total, unassigned.
      rewrite <- (fmap_lookup_total_seq (λ item, default 0%Z (int_price item)) items).
      by rewrite (sum_Z_three_way _ p1 p2 (seq 0 (length items)) Hdisj).
  - intros a b _ _ Ha Hb. rewrite Ha, Hb.
    rewrite (exact_sum_selected items p1), (exact_sum_selected items p2) by auto.
    unfold exact_sum at 2, unassigned.
    unfold exact_sum at 1.
    by rewrite (sum_Q_three_way _ p1 p2 (seq 0 (length items)) Hdisj).
Qed.

Lemma totals_partition_invoice_witness :
  (∃ a b,
     person_total
       (JArr [JObj {[lit "total_price" := JNum (PInt 100)]};
              JObj {[lit "total_price" := JNum (PInt 50)]};
              JObj {[lit "total_price" := JBool true]}]) [0] = Ok (PInt a)
     ∧ person_total
         (JArr [JObj {[lit "total_price" := JNum (PInt 100)]};
                JObj {[lit "total_price" := JNum (PInt 50)]};
                JObj {[lit "total_price" := JBool true]}]) [1] = Ok (PInt b)
     ∧ (a + b + 1 = 151)%Z)
  ∧ (exact_value (PFloat (decimal 1000 (-1))) + exact_value (PFloat (decimal 500 (-1)))
     + exact_sum scenario_items (unassigned scenario_items [0%nat] [1%nat])
     == exact_sum scenario_items (seq 0%nat (length scenario_items)))%Q.
Proof.
  split.
  - destruct (totals_partition_invoice
                [JObj {[lit "total_price" := JNum (PInt 100)]};
                 JObj {[lit "total_price" := JNum (PInt 50)]};
                 JObj {[lit "total_price" := JBool true]}] [0] [1])
      as [Hint _].
    + apply NoDup_singleton.
    + apply NoDup_singleton.
    + intros i ->%list_elem_of_singleton [=]%list_elem_of_singleton.
    + intros i [->%list_elem_of_singleton| ->%list_elem_of_singleton]; simpl; lia.
    + destruct Hint as (a & b & Ha & Hb & Hsum).
      * repeat constructor; by eexists.
      * exists a, b. split_and!; [done|done|]. exact Hsum.
  - apply (totals_partition_invoice scenario_items [0] [1]).
    + apply NoDup_singleton.
    + apply NoDup_singleton.
    + intros i ->%list_elem_of_singleton [=]%list_elem_of_singleton.
    + intros i [->%list_elem_of_singleton| ->%list_elem_of_singleton]; simpl; lia.
    + vm_compute. reflexivity.
    + vm_compute. reflexivity.
    + vm_compute. reflexivity.
    + vm_compute. reflexivity.
Defined.

(** C2, as the specification has it, fails for prices that are floats. The
    prices are 0.1, 0.2 and 0.7; row 0 is assigned to person 1, rows 1 and 2
    to person 2, no row is unassigned. The totals are 0.1 and
    0.8999999999999999 and add up to 0.9999999999999999; the prices add up
    to 1.0 as Python adds them, and to more than the two totals as
    rationals. *)
Lemma rounded_totals_miss_invoice :
  unassigned rounding_invoice [0] [1; 2] = []
  ∧ person_total (JArr rounding_invoice) [0] = Ok (PFloat (decimal 1 (-1)))
  ∧ person_total (JArr rounding_invoice) [1; 2]
    = Ok (PFloat (decimal 8999999999999999 (-16)))
  ∧ add (PFloat (decimal 1 (-1))) (PFloat (decimal 8999999999999999 (-16)))
    = Ok (PFloat (decimal 9999999999999999 (-16)))
  ∧ person_total (JArr rounding_invoice) [0; 1; 2] = Ok (PFloat (decimal 1 0))
  ∧ decimal 9999999999999999 (-16) ≠ decimal 1 0
  ∧ gt (PFloat (decimal 1 0)) (PFloat (decimal 9999999999999999 (-16))) = true
  ∧ (exact_value (PFloat (decimal 1 (-1)))
     + exact_value (PFloat (decimal 8999999999999999 (-16)))
     < exact_value (PFloat (decimal 1 (-1))) + exact_value (PFloat (decimal 2 (-1)))
       + exact_value (PFloat (decimal 7 (-1))))%Q.
Proof. vm_compute. split_and!; done. Qed.

(** The lists have to be disjoint: an index in both lists, which the code
    allows, is counted in both totals. After a click in each box of row 0
    of the scenario's invoice both totals are 100.0, row 1 with its 50.0 is
    unassigned, and all prices together are 150. *)
Example shared_index_is_counted_twice :
  person_total (JArr scenario_items) (person1_items both_assigned)
  = Ok (PFloat (decimal 1000 (-1)))
  ∧ person_total (JArr scenario_items) (person2_items both_assigned)
    = Ok (PFloat (decimal 1000 (-1)))
  ∧ unassigned scenario_items (person1_items both_assigned)
      (person2_items both_assigned) = [1]
  ∧ (exact_sum scenario_items (seq 0%nat (length scenario_items)) == 150)%Q.
Proof. vm_compute. done. Qed.

(** The same holds for the order of the clicks: with float prices the
    total of a list depends on the order of its indices. The prices are
    1e308, 1e308 and -1e308: added in this order they give an infinity, with
    the last two exchanged 1e308. *)
Example float_total_depends_on_click_order :
  person_total
    (JArr [JObj {[lit "total_price" := JNum (PFloat (decimal 1 308))]};
           JObj {[lit "total_price" := JNum (PFloat (decimal 1 308))]};
           JObj {[lit "total_price" := JNum (PFloat (float_of_decimal true 1 308))]}])
    [0; 1; 2] = Ok (PFloat (S754_infinity false))
  ∧ person_total
      (JArr [JObj {[lit "total_price" := JNum (PFloat (decimal 1 308))]};
             JObj {[lit "total_price" := JNum (PFloat (decimal 1 308))]};
             JObj {[lit "total_price" := JNum (PFloat (float_of_decimal true 1 308))]}])
      [0; 2; 1] = Ok (PFloat (decimal 1 308)).
Proof. vm_compute. done. Qed.

(** ** Settlement *)

Lemma Qgt_bool_true x y : Qgt_bool x y = true ↔ (y < x)%Q.
Proof.
  unfold Qgt_bool. rewrite negb_true_iff, <- not_true_iff_false, Qle_bool_iff.
  split; [apply Qnot_le_lt | apply Qlt_not_le].
Qed.

Lemma Qgt_bool_false x y : Qgt_bool x y = false ↔ (x <= y)%Q.
Proof.
  unfold Qgt_bool. by rewrite negb_false_iff, Qle_bool_iff.
Qed.

Lemma Qlt_bool_false x y : Qlt_bool x y = false ↔ (y <= x)%Q.
Proof.
  unfold Qlt_bool. rewrite negb_false_iff. apply Qle_bool_iff.
Qed.

Lemma Qlt_bool_true x y : Qlt_bool x y = true ↔ (x < y)%Q.
Proof.
  unfold Qlt_bool. rewrite negb_true_iff, <- not_true_iff_false, Qle_bool_iff.
  split; [apply Qnot_le_lt | apply Qlt_not_le].
Qed.

(** The only exception of the arithmetic is [OverflowError]. *)
Lemma nearest_float_raise z e err : nearest_float z e = Raise err → err = OverflowError.
Proof. unfold nearest_float. by repeat case_match; intros [= <-]. Qed.

Lemma to_float_raise n err : to_float n = Raise err → err = OverflowError.
Proof. destruct n; [apply nearest_float_raise | done]. Qed.

Lemma add_raise a b err : add a b = Raise err → err = OverflowError.
Proof.
  unfold add. destruct a, b; try done; simpl;
    repeat match goal with
           | |- context [float_of_int ?z] =>
               destruct (float_of_int z) eqn:?; simpl
           end; try done; intros [= <-]; by eapply nearest_float_raise.
Qed.

Lemma sub_raise a b err : sub a b = Raise err → err = OverflowError.
Proof.
  unfold sub. destruct a, b; try done; simpl;
    repeat match goal with
           | |- context [float_of_int ?z] =>
               destruct (float_of_int z) eqn:?; simpl
           end; try done; intros [= <-]; by eapply nearest_float_raise.
Qed.

Lemma halve_raise a err : halve a = Raise err → err = OverflowError.
Proof. destruct a; [apply nearest_float_raise | done]. Qed.

Lemma who_owes_raise a b split err :
  who_owes a b split = Raise err → err = OverflowError.
Proof.
  unfold who_owes. repeat case_match; try done;
    match goal with
    | |- context [sub ?x ?y] => destruct (sub x y) as [amount|e] eqn:Hsub
    end; simpl;
    [destruct (to_float amount) eqn:Hf; simpl; [done|];
     intros [= <-]; by eapply to_float_raise
    |intros [= <-]; by eapply sub_raise
    |destruct (to_float amount) eqn:Hf; simpl; [done|];
     intros [= <-]; by eapply to_float_raise
    |intros [= <-]; by eapply sub_raise].
Qed.

(** The sum of two floats does not depend on their order. *)
Lemma SFadd_comm x y : SFadd prec emax x y = SFadd prec emax y x.
Proof.
  destruct x as [sx|sx| |sx mx ex], y as [sy|sy| |sy my ey];
    try done; try (by destruct sx, sy).
  unfold SFadd. by rewrite Z.min_comm, Z.add_comm.
Qed.

Lemma add_comm a b : add a b = add b a.
Proof.
  destruct a as [x|f], b as [y|g]; simpl.
  - by rewrite Z.add_comm.
  - destruct (float_of_int x); simpl; [by rewrite SFadd_comm|done].
  - destruct (float_of_int y); simpl; [by rewrite SFadd_comm|done].
  - by rewrite SFadd_comm.
Qed.

Lemma extended_lt_asym x y : extended_lt x y = true → extended_lt y x = false.
Proof.
  destruct x as [|p|], y as [|q|]; try done. simpl.
  rewrite Qlt_bool_true. intros H. apply not_true_iff_false.
  rewrite Qlt_bool_true. by apply Qle_not_lt, Qlt_le_weak.
Qed.

Lemma gt_asym a b : gt a b = true → gt b a = false.
Proof.
  unfold gt. destruct (value a), (value b); try done. apply extended_lt_asym.
Qed.

(** Who pays is decided by the comparison of the totals alone. *)
Lemma who_owes_payer a b split line :
  who_owes a b split = Ok line →
  payer line = (if gt a b then Some Person2 else if gt b a then Some Person1 else None)
  ∧ payee line = other <$> payer line.
Proof.
  unfold who_owes. destruct (gt a b); [|destruct (gt b a)].
  - destruct (sub a _) as [amount|]; simpl; [|done].
    destruct (to_float amount); simpl; [|done]. by intros [= <-].
  - destruct (sub b _) as [amount|]; simpl; [|done].
    destruct (to_float amount); simpl; [|done]. by intros [= <-].
  - by intros [= <-].
Qed.

(** Exchanging the totals exchanges the roles and nothing else. *)
Lemma who_owes_swap a b split :
  who_owes b a split
  = match who_owes a b split with
    | Ok (Owes debtor creditor amount) => Ok (Owes creditor debtor amount)
    | r => r
    end.
Proof.
  unfold who_owes. destruct (gt a b) eqn:Hab.
  - rewrite (gt_asym _ _ Hab).
    destruct (sub a _) as [amount|]; simpl; [|done].
    by destruct (to_float amount).
  - destruct (gt b a); [|done].
    destruct (sub b _) as [amount|]; simpl; [|done].
    by destruct (to_float amount).
Qed.

Lemma settlement_swap a b :
  settlement b a
  = match settlement a b with
    | Ok (Owes debtor creditor amount) => Ok (Owes creditor debtor amount)
    | r => r
    end.
Proof.
  unfold settlement. rewrite (add_comm b a).
  destruct (add a b) as [total|]; simpl; [|done].
  destruct (halve total) as [split|]; simpl; [|done].
  apply who_owes_swap.
Qed.

(** C3, as the code has it. The settlement of two totals raises nothing
    but [OverflowError], and nothing at all for two floats. When it returns,
    it names as payer the person whose total is smaller, the totals being
    compared by value, and nobody when neither total is greater than the
    other; the payee is the other person; exchanging the totals exchanges
    payer and payee and keeps the amount; the amount is the greater total
    minus half the sum of the totals, each step rounded to a float; for two
    finite totals the payer is the one whose total is smaller as a rational,
    and when the sum, the half and the difference are computed without
    rounding, the amount is half the absolute difference of the totals;
    totals of 100.0 and 50.0 make person 2 owe 25.0 to person 1. *)
Theorem settlement_names_smaller_total (a b : number) :
  (∀ e, settlement a b = Raise e → e = OverflowError)
  ∧ (∀ f g, is_Ok (settlement (PFloat f) (PFloat g)))
  ∧ (∀ line, settlement a b = Ok line →
       payer line
         = (if gt a b then Some Person2 else if gt b a then Some Person1 else None)
       ∧ payee line = other <$> payer line
       ∧ (∀ who, payer line = Some who →
            ∃ total split_amount,
              add a b = Ok total ∧ halve total = Ok split_amount
              ∧ amount line
                = Some (SFsub prec emax
                          (default S754_nan
                             (match who with
                              | Person2 => match to_float a with Ok f => Some f | _ => None end
                              | Person1 => match to_float b with Ok f => Some f | _ => None end
                              end))
                          split_amount))
       ∧ ∃ line', settlement b a = Ok line'
                  ∧ payer line' = other <$> payer line
                  ∧ payee line' = other <$> payee line
                  ∧ amount line' = amount line)
  ∧ (∀ va vb line,
       value a = Some (Finite va) → value b = Some (Finite vb) →
       settlement a b = Ok line →
       payer line
         = match (va ?= vb)%Q with
           | Gt => Some Person2
           | Lt => Some Person1
           | Eq => None
           end
       ∧ ∀ total half x,
           add a b = Ok total → halve total = Ok half → amount line = Some x →
           (exact_value total == va + vb)%Q →
           (exact_value (PFloat half) == exact_value total / 2)%Q →
           (exact_value (PFloat x) == Qmax va vb - exact_value (PFloat half))%Q →
           (exact_value (PFloat x) == Qabs (va - vb) / 2)%Q)
  ∧ settlement (PFloat (decimal 1000 (-1))) (PFloat (decimal 500 (-1)))
    = Ok (Owes Person2 Person1 (decimal 250 (-1))).
Proof.
  split_and!.
  - intros e. unfold settlement.
    destruct (add a b) as [total|e'] eqn:Hadd; simpl;
      [|intros [= <-]; by eapply add_raise].
    destruct (halve total) as [split|e'] eqn:Hhalve; simpl;
      [|intros [= <-]; by eapply halve_raise].
    apply who_owes_raise.
  - intros f g. unfold settlement, who_owes. simpl.
    repeat case_match; by eexists.
  - intros line Hline. pose proof (settlement_swap a b) as Hswap.
    rewrite Hline in Hswap. unfold settlement in Hline.
    destruct (add a b) as [total|] eqn:Hadd; simpl in Hline; [|done].
    destruct (halve total) as [split|] eqn:Hhalve; simpl in Hline; [|done].
    destruct (who_owes_payer _ _ _ _ Hline) as [Hpayer Hpayee].
    split_and!; [done|done| |].
    + intros who Hwho. exists total, split. split_and!; [done|done|].
      unfold who_owes in Hline. rewrite Hpayer in Hwho.
      destruct (gt a b); [|destruct (gt b a)]; simplify_eq/=.
      * destruct a as [z|f]; simpl in *.
        -- destruct (float_of_int z); simplify_eq/=. done.
        -- by simplify_eq/=.
      * destruct b as [z|f]; simpl in *.
        -- destruct (float_of_int z); simplify_eq/=. done.
        -- by simplify_eq/=.
    + destruct line as [| | | | | | | | | |debtor creditor x|];
        eexists; (split; [exact Hswap|]); simpl in *; try done.
      rewrite Hpayee. simplify_eq/=. by destruct debtor.
  - intros va vb line Ha Hb Hline.
    assert (Hab : gt a b = Qlt_bool vb va) by (unfold gt; by rewrite Ha, Hb).
    assert (Hba : gt b a = Qlt_bool va vb) by (unfold gt; by rewrite Ha, Hb).
    unfold settlement in Hline.
    destruct (add a b) as [total|] eqn:Hadd; simpl in Hline; [|done].
    destruct (halve total) as [half|] eqn:Hhalve; simpl in Hline; [|done].
    destruct (who_owes_payer _ _ _ _ Hline) as [Hpayer _].
    rewrite Hpayer, Hab, Hba. clear Hpayer.
    destruct (va ?= vb)%Q eqn:Hcmp.
    + apply Qeq_alt in Hcmp.
      rewrite (proj2 (Qlt_bool_false vb va)), (proj2 (Qlt_bool_false va vb))
        by (rewrite Hcmp; apply Qle_refl).
      split; [done|]. intros total' half' x _ _ Hx.
      unfold who_owes in Hline. rewrite Hab, Hba in Hline.
      rewrite (proj2 (Qlt_bool_false vb va)), (proj2 (Qlt_bool_false va vb)) in Hline
        by (rewrite Hcmp; apply Qle_refl).
      by simplify_eq/=.
    + apply Qlt_alt in Hcmp.
      rewrite (proj2 (Qlt_bool_false vb va)) by by apply Qlt_le_weak.
      rewrite (proj2 (Qlt_bool_true va vb)) by done.
      split; [done|]. intros total' half' x [= <-] Hh _ Htotal Hhalf Hx.
      rewrite Hhalve in Hh. injection Hh as <-.
      rewrite Hx, Hhalf, Htotal, (Q.max_r va vb) by by apply Qlt_le_weak.
      rewrite <- (Qabs_opp (va - vb)), Qabs_pos by lra. field.
    + apply Qgt_alt in Hcmp.
      rewrite (proj2 (Qlt_bool_true vb va)) by done.
      split; [done|]. intros total' half' x [= <-] Hh _ Htotal Hhalf Hx.
      rewrite Hhalve in Hh. injection Hh as <-.
      rewrite Hx, Hhalf, Htotal, (Q.max_l va vb) by by apply Qlt_le_weak.
      rewrite Qabs_pos by lra. field.
  - vm_compute. reflexivity.
Qed.

(** C3, as the specification has it, fails: for totals of 0.1 and 0.05 the
    amount is 0.024999999999999994, not half the difference, which is the
    float 0.025, also as Python computes it. *)
Lemma settlement_amount_is_rounded :
  settlement (PFloat (decimal 1 (-1))) (PFloat (decimal 5 (-2)))
  = Ok (Owes Person2 Person1 (decimal 24999999999999994 (-18)))
  ∧ (r ← sub (PFloat (decimal 1 (-1))) (PFloat (decimal 5 (-2))); halve r)
    = Ok (decimal 25 (-3))
  ∧ decimal 24999999999999994 (-18) ≠ decimal 25 (-3)
  ∧ ((exact_value (PFloat (decimal 1 (-1))) - exact_value (PFloat (decimal 5 (-2)))) / 2
     == exact_value (PFloat (decimal 25 (-3))))%Q
  ∧ (exact_value (PFloat (decimal 24999999999999994 (-18)))
     < exact_value (PFloat (decimal 25 (-3))))%Q.
Proof. vm_compute. split_and!; done. Qed.

(** For totals of 100.0 and 50.0 no step of the settlement rounds. *)
Example scenario_settlement_is_exact :
  add (PFloat (decimal 1000 (-1))) (PFloat (decimal 500 (-1)))
  = Ok (PFloat (decimal 1500 (-1)))
  ∧ halve (PFloat (decimal 1500 (-1))) = Ok (decimal 750 (-1))
  ∧ (exact_value (PFloat (decimal 1500 (-1))) == 100 + 50)%Q
  ∧ (exact_value (PFloat (decimal 750 (-1)))
     == exact_value (PFloat (decimal 1500 (-1))) / 2)%Q
  ∧ (exact_value (PFloat (decimal 250 (-1)))
     == Qmax 100 50 - exact_value (PFloat (decimal 750 (-1))))%Q.
Proof. vm_compute. split_and!; done. Qed.

(** ** Missing fields *)

Lemma falsy_line_items_count st fields :
  invoice_data st = Some (JObj fields) →
  from_option truthy false (fields !! lit "line_items") = false →
  line_count st = 0.
Proof.
  intros Hdata. unfold line_count, line_items_of. rewrite Hdata.
  destruct (fields !! lit "line_items") as [[]|]; simpl; try done.
  rewrite negb_false_iff, bool_decide_eq_true. by intros ->.
Qed.

Lemma valid_indices_empty st :
  valid_indices st → line_count st = 0 →
  person1_items st = [] ∧ person2_items st = [].
Proof.
  intros Hvalid Hcount. split.
  - destruct (person1_items st) as [|i l] eqn:H; [done|].
    specialize (Hvalid i). rewrite H in Hvalid.
    specialize (Hvalid (or_introl (list_elem_of_here _ _))). lia.
  - destruct (person2_items st) as [|i l] eqn:H; [done|].
    specialize (Hvalid i). rewrite H in Hvalid.
    specialize (Hvalid (or_intror (list_elem_of_here _ _))). lia.
Qed.

(** C8, as the code has it. When the stored invoice is a dict with at least
    one key: the first two lines shown are the invoice id and the date, each
    replaced by "N/A" when its key is missing; and when ['line_items'] is
    missing or empty, the only other thing shown is the error "No line items
    found in the invoice.", nothing is raised, the session is unchanged and
    both lists are empty, so that the sums over them are zero and zero
    against zero is "perfectly split". *)
Theorem defaults_for_missing_fields (inp : run_input) (st : session)
    (fields : gmap pystr json) :
  invoice_data st = Some (JObj fields) →
  fields ≠ ∅ →
  valid_indices st →
  take 2 (shown (display inp st))
    = [InvoiceId (default not_available (fields !! lit "invoice_id"));
       InvoiceDate (default not_available (fields !! lit "date"))]
  ∧ (fields !! lit "invoice_id" = None →
       InvoiceId (JStr (lit "N/A")) ∈ shown (display inp st))
  ∧ (fields !! lit "date" = None →
       InvoiceDate (JStr (lit "N/A")) ∈ shown (display inp st))
  ∧ (from_option truthy false (fields !! lit "line_items") = false →
       shown (display inp st)
         = [InvoiceId (default not_available (fields !! lit "invoice_id"));
            InvoiceDate (default not_available (fields !! lit "date"));
            StError NoLineItems]
       ∧ raised (display inp st) = None
       ∧ final (display inp st) = st
       ∧ person1_items st = [] ∧ person2_items st = []
       ∧ (∀ line_items, person_total line_items (person1_items st) = Ok (PInt 0)
                        ∧ person_total line_items (person2_items st) = Ok (PInt 0))
       ∧ summary (PInt 0) (PInt 0)
         = ([Metric Person1 (S754_zero false); Metric Person2 (S754_zero false);
             TotalExpense (S754_zero false); SplitAmount (S754_zero false);
             PerfectlySplit], None)).
Proof.
  intros Hdata Hne Hvalid.
  assert (Hhead : take 2 (shown (display inp st))
    = [InvoiceId (default not_available (fields !! lit "invoice_id"));
       InvoiceDate (default not_available (fields !! lit "date"))]).
  { unfold display. rewrite Hdata.
    assert (truthy (JObj fields) = true) as ->.
    { simpl. by apply negb_true_iff, bool_decide_eq_false. }
    simpl. destruct (fields !! lit "line_items") as [line_items|]; [|done].
    destruct (truthy line_items); [|done]. by rewrite shown_and_then. }
  assert (Hin : ∀ e, e ∈ take 2 (shown (display inp st)) → e ∈ shown (display inp st)).
  { intros e He. by apply (subseteq_take 2 (shown (display inp st))). }
  split_and!; [done| | |].
  - intros Hid. apply Hin. rewrite Hhead, Hid. apply list_elem_of_here.
  - intros Hdate. apply Hin. rewrite Hhead, Hdate.
    apply list_elem_of_further, list_elem_of_here.
  - intros Hfalsy.
    destruct (valid_indices_empty st Hvalid
                (falsy_line_items_count st fields Hdata Hfalsy)) as [H1 H2].
    assert (display inp st = completed st
      [InvoiceId (default not_available (fields !! lit "invoice_id"));
       InvoiceDate (default not_available (fields !! lit "date"));
       StError NoLineItems]) as ->.
    { unfold display. rewrite Hdata.
      assert (truthy (JObj fields) = true) as ->.
      { simpl. by apply negb_true_iff, bool_decide_eq_false. }
      simpl. destruct (fields !! lit "line_items") as [line_items|]; [|done].
      simpl in Hfalsy. by rewrite Hfalsy. }
    rewrite H1, H2. by split_and!.
Qed.

Lemma defaults_for_missing_fields_witness :
  shown (display (submit (lit "%PDF")) date_only)
  = [InvoiceId (JStr (lit "N/A")); InvoiceDate (JStr (lit "2024-01-05"));
     StError NoLineItems]
  ∧ raised (display (submit (lit "%PDF")) date_only) = None.
Proof.
  destruct (defaults_for_missing_fields (submit (lit "%PDF")) date_only
              {[ lit "date" := JStr (lit "2024-01-05") ]})
    as (_ & _ & _ & Hempty).
  - reflexivity.
  - apply insert_non_empty.
  - intros i [H|H]; by apply elem_of_nil in H.
  - destruct Hempty as (Hshown & Hraised & _); [reflexivity|].
    split; [exact Hshown | exact Hraised].
Defined.

(** C8, as the specification has it, fails. The response [{}] decodes to an
    empty dict, which line 127 takes for no invoice: nothing is shown,
    neither "N/A" nor the error for missing line items. The response [[1]]
    decodes to a list, on which [invoice_data.get] raises. *)
Lemma empty_object_shows_nothing :
  script (answering (lit "{}")) (submit (lit "%PDF")) initial_session
  = completed {| invoice_data := Some (JObj ∅);
                 person1_items := []; person2_items := [] |}
      [Completion (openrouter (lit "sk-or-test"))
         (make_prompt (scenario_page ++ nl ++ nl))]
  ∧ invoice_data (final (script (answering (lit "[1]")) (submit (lit "%PDF"))
                           initial_session)) = Some (JArr [JNum (PInt 1)])
  ∧ raised (script (answering (lit "[1]")) (submit (lit "%PDF")) initial_session)
    = Some AttributeError.
Proof. by vm_compute. Qed.

(** ** The scenarios of the specification, run *)

Example scenario_1 :
  Ok <$> invoice_data scenario_session = Some (reference_json_loads scenario_json)
  ∧ person1_items scenario_session = []
  ∧ person2_items scenario_session = []
  ∧ line_count scenario_session = 2.
Proof. vm_compute. done. Qed.

Example scenario_2 :
  let st := toggle scenario_ext Person2 1 (toggle scenario_ext Person1 0 scenario_session) in
  person1_items st = [0] ∧ person2_items st = [1]
  ∧ shown (script scenario_ext (toggle_input Person2 1 (toggle scenario_ext Person1 0 scenario_session))
             (toggle scenario_ext Person1 0 scenario_session))
    = [InvoiceId (JStr (lit "123")); InvoiceDate (JStr (lit "2024-01-05"));
       RowName (JStr (lit "Widget")); RowPrice (decimal 1000 (-1));
       RowName (JStr (lit "Gadget")); RowPrice (decimal 500 (-1));
       Metric Person1 (decimal 1000 (-1)); Metric Person2 (decimal 500 (-1));
       TotalExpense (decimal 1500 (-1)); SplitAmount (decimal 750 (-1));
       Owes Person2 Person1 (decimal 250 (-1))].
Proof. vm_compute. done. Qed.

Example scenario_3 :
  script (answering prose) (submit (lit "%PDF")) initial_session
  = completed initial_session
      [Completion (openrouter (lit "sk-or-test"))
         (make_prompt (scenario_page ++ nl ++ nl));
       StError ParseFailure; StText prose].
Proof. by vm_compute. Qed.

Example scenario_4 :
  script (answering (dq "{'invoice_id':'7','date':'2024-02-01','line_items':[]}"))
    (submit (lit "%PDF")) initial_session
  = completed
      {| invoice_data :=
           Some (JObj (<[lit "invoice_id" := JStr (lit "7")]>
                      (<[lit "date" := JStr (lit "2024-02-01")]>
                      (<[lit "line_items" := JArr []]> ∅))));
         person1_items := []; person2_items := [] |}
      [Completion (openrouter (lit "sk-or-test"))
         (make_prompt (scenario_page ++ nl ++ nl));
       InvoiceId (JStr (lit "7")); InvoiceDate (JStr (lit "2024-02-01"));
       StError NoLineItems].
Proof. by vm_compute. Qed.

Example scenario_5 :
  script (without_key scenario_ext) (submit (lit "%PDF")) initial_session
  = completed initial_session [StError ApiKeyNotFound].
Proof. reflexivity. Qed.

(** * Further properties of the code *)

(** ** What the repair removes *)

Lemma strip_split s :
  ∃ w w', s = w ++ strip s ++ w'
          ∧ forallb isspace w = true ∧ forallb isspace w' = true.
Proof.
  destruct (lstrip_split s) as (w & Hs & Hw).
  destruct (rstrip_split (lstrip s)) as (w' & Hl & Hw').
  exists w, w'. split_and!; [|done|done].
  unfold strip. by rewrite <- Hl.
Qed.

Lemma strip_first s c rest : strip s = c :: rest → isspace c = false.
Proof.
  unfold strip. destruct (rstrip_split (lstrip s)) as (w & Hl & _).
  intros H. rewrite H in Hl. by apply (lstrip_head s c (rest ++ w)).
Qed.

Lemma strip_last s c rest : strip s = rest ++ [c] → isspace c = false.
Proof.
  unfold strip, rstrip. intros H.
  apply (f_equal reverse) in H. rewrite reverse_involutive, reverse_snoc in H.
  by apply lstrip_head in H.
Qed.

Lemma strip_fences_split s :
  ∃ m m', s = m ++ strip_fences s ++ m'
          ∧ (m = [] ∨ m = fence_json) ∧ (m' = [] ∨ m' = fence).
Proof.
  unfold strip_fences.
  destruct (startswith fence_json s) eqn:Hstart.
  - apply bool_decide_eq_true in Hstart as [k ->].
    rewrite replace_first_prefix. simpl.
    destruct (endswith fence k) eqn:Hend.
    + apply bool_decide_eq_true in Hend as [k' ->].
      rewrite (drop_last_app fence). exists fence_json, fence. auto.
    + exists fence_json, []. rewrite app_nil_r. auto.
  - destruct (endswith fence s) eqn:Hend.
    + apply bool_decide_eq_true in Hend as [k' ->].
      rewrite (drop_last_app fence). exists [], fence. auto.
    + exists [], []. rewrite app_nil_r. auto.
Qed.

(** X1. The text handed to the decoder is a contiguous part of the
    response: what lines 78-84 remove in front of it is whitespace, at most
    one [```json] marker and whitespace, and behind it whitespace, at most one
    [```] marker and whitespace; the text itself neither starts nor ends with
    whitespace, and nothing inside it is changed. *)
Theorem repair_removes_only_the_ends (response : pystr) :
  (∃ w1 m1 w2 w3 m2 w4,
     response = (w1 ++ m1 ++ w2) ++ json_text response ++ (w3 ++ m2 ++ w4)
     ∧ forallb isspace (w1 ++ w2 ++ w3 ++ w4) = true
     ∧ (m1 = [] ∨ m1 = fence_json) ∧ (m2 = [] ∨ m2 = fence))
  ∧ (∀ c rest, json_text response = c :: rest → isspace c = false)
  ∧ (∀ c rest, json_text response = rest ++ [c] → isspace c = false).
Proof.
  split_and!.
  - unfold json_text.
    destruct (strip_split response) as (w1 & w4 & H0 & Hw1 & Hw4).
    destruct (strip_fences_split (strip response)) as (m1 & m2 & H1 & Hm1 & Hm2).
    destruct (strip_split (strip_fences (strip response)))
      as (w2 & w3 & H2 & Hw2 & Hw3).
    exists w1, m1, w2, w3, m2, w4. split_and!; [|by rewrite !forallb_app, Hw1, Hw2, Hw3, Hw4|done|done].
    rewrite H0 at 1. rewrite H1 at 1. rewrite H2 at 1.
    by rewrite <- !app_assoc.
  - intros c rest. apply strip_first.
  - intros c rest. apply strip_last.
Qed.

(** ** The text of the document *)

Lemma foldl_pages documents : ∀ full_text,
  foldl (λ full_text doc, full_text ++ doc ++ nl ++ nl) full_text documents
  = full_text ++ mjoin (page_with_blank_line <$> documents).
Proof.
  induction documents as [|doc documents IH]; intros full_text; simpl.
  - by rewrite app_nil_r.
  - rewrite IH. unfold page_with_blank_line. by rewrite <- !app_assoc.
Qed.

Lemma length_join_pages documents :
  length (mjoin (page_with_blank_line <$> documents))
  = sum_list (length <$> documents) + 2 * length documents.
Proof.
  induction documents as [|doc documents IH]; [done|].
  change (mjoin (page_with_blank_line <$> doc :: documents))
    with (page_with_blank_line doc ++ mjoin (page_with_blank_line <$> documents)).
  change (sum_list (length <$> doc :: documents))
    with (length doc + sum_list (length <$> documents)).
  rewrite length_app, IH. unfold page_with_blank_line.
  remember (sum_list (length <$> documents)) as total.
  rewrite !length_app. simpl. lia.
Qed.

(** X2. When the reader returns the pages of the document,
    [extract_text_from_pdf] returns them all, in their order, each followed
    by two newlines and nothing else: page [i] stands right after the pages
    before it, and the text is as long as the pages together plus two for
    each page (so that no page gives the empty text). *)
Theorem document_text_keeps_every_page (ext : externals) (pdf_path : pystr)
    (documents : list pystr) :
  pdf_load_data ext pdf_path = Ok documents →
  ∃ text,
    extract_text_from_pdf ext pdf_path = Ok text
    ∧ length text = sum_list (length <$> documents) + 2 * length documents
    ∧ (documents = [] → text = [])
    ∧ ∀ i doc, documents !! i = Some doc →
        ∃ after,
          text = mjoin (page_with_blank_line <$> take i documents)
                 ++ doc ++ nl ++ nl ++ after.
Proof.
  intros Hread. unfold extract_text_from_pdf. rewrite Hread.
  eexists. split; [done|]. rewrite foldl_pages, app_nil_l. split_and!.
  - apply length_join_pages.
  - by intros ->.
  - intros i doc Hi.
    exists (mjoin (page_with_blank_line <$> drop (S i) documents)).
    pose proof (take_drop_middle _ _ _ Hi) as Hsplit.
    apply (f_equal (λ l, mjoin (page_with_blank_line <$> l))) in Hsplit.
    rewrite <- Hsplit, fmap_app, fmap_cons. unfold pystr. rewrite join_app.
    change (mjoin (page_with_blank_line doc
                   :: (page_with_blank_line <$> drop (S i) documents)))
      with (page_with_blank_line doc
            ++ mjoin (page_with_blank_line <$> drop (S i) documents)).
    unfold page_with_blank_line at 2. by rewrite <- !app_assoc.
Qed.

Lemma document_text_keeps_every_page_witness :
  ∃ text,
    extract_text_from_pdf scenario_ext (lit "%PDF") = Ok text
    ∧ length text = sum_list (length <$> [scenario_page]) + 2 * length [scenario_page]
    ∧ ([scenario_page] = [] → text = [])
    ∧ ∀ i doc, [scenario_page] !! i = Some doc →
        ∃ after,
          text = mjoin (page_with_blank_line <$> take i [scenario_page])
                 ++ doc ++ nl ++ nl ++ after.
Proof.
  apply (document_text_keeps_every_page scenario_ext (lit "%PDF") [scenario_page]).
  reflexivity.
Defined.

(** ** The outcomes of [extract_invoice_data] *)


(** X3. [extract_invoice_data] never calls the completion client twice,
    and it returns [None] silently in one case only: in every case it makes
    at most one call; when it returns [None] it has shown an error (the
    missing key, or the parse failure with the raw response), unless the
    response decoded to [null], which is returned as it is, with nothing
    shown; when it returns a record, the record is not [None] and nothing
    was shown, and when it raises nothing was shown either. *)
Theorem extraction_outcomes (ext : externals) (pdf_path : pystr) :
  completion_calls (extract_invoice_data ext pdf_path).1 ≤ 1
  ∧ match (extract_invoice_data ext pdf_path).2 with
    | Ok None =>
        existsb is_error (extract_invoice_data ext pdf_path).1 = true
        ∨ (List.filter (λ e, negb (is_completion e))
             (extract_invoice_data ext pdf_path).1 = []
           ∧ ∃ text key response,
               extract_text_from_pdf ext pdf_path = Ok text
               ∧ os_getenv ext (lit "OPENROUTER_API_KEY") = Some key
               ∧ llm_complete ext (openrouter key) (make_prompt text) = Ok response
               ∧ json_loads ext (json_text response) = Ok JNull)
    | Ok (Some invoice_data) =>
        invoice_data ≠ JNull
        ∧ List.filter (λ e, negb (is_completion e))
            (extract_invoice_data ext pdf_path).1 = []
    | Raise _ =>
        List.filter (λ e, negb (is_completion e)) (extract_invoice_data ext pdf_path).1
        = []
    end.
Proof.
  unfold extract_invoice_data.
  destruct (extract_text_from_pdf ext pdf_path) as [text|e];
    [|split; [unfold completion_calls; simpl; lia | done]].
  destruct (os_getenv ext _) as [[|c key]|] eqn:Hkey;
    try (split; [unfold completion_calls; simpl; lia | by left]).
  destruct (llm_complete ext _ _) as [response|e] eqn:Hllm;
    [|split; [unfold completion_calls; simpl; lia | done]].
  destruct (json_loads ext _) as [[]|[]] eqn:Hjson;
    (split; [unfold completion_calls; simpl; lia | try done]).
  - right. split; [done|]. by eexists _, _, _.
  - by left.
Qed.

Example null_is_returned_silently :
  extract_invoice_data (answering (lit "null")) (lit "%PDF")
  = ([Completion (openrouter (lit "sk-or-test"))
        (make_prompt (scenario_page ++ nl ++ nl))], Ok None).
Proof. vm_compute. reflexivity. Qed.

(** ** Runs of the script *)

(** X4. A run of the script calls the completion client at most once, and
    not at all unless a file is uploaded and the run was started by the
    "Process Invoice" button: ticking boxes never costs a call. *)
Theorem completion_only_on_button (ext : externals) (inp : run_input) (st : session) :
  completion_calls (shown (script ext inp st)) ≤ 1
  ∧ (uploaded_file inp = None ∨ process_clicked inp = false →
     completion_calls (shown (script ext inp st)) = 0).
Proof.
  assert (Hdisplay : ∀ r,
    completion_calls (shown (and_then r (display inp))) = completion_calls (shown r)).
  { intros r. rewrite shown_and_then, completion_calls_app.
    destruct (raised r); [unfold completion_calls; simpl; lia|].
    rewrite display_no_completion. lia. }
  unfold script. rewrite Hdisplay. split.
  - destruct (uploaded_file inp) as [pdf|]; [|unfold completion_calls; simpl; lia].
    destruct (process_clicked inp); [|unfold completion_calls; simpl; lia].
    unfold process_invoice, extract_invoice_data.
    destruct (extract_text_from_pdf ext pdf) as [text|e];
      [|unfold completion_calls; simpl; lia].
    destruct (os_getenv ext _) as [[|c key]|];
      try (unfold completion_calls; simpl; lia).
    destruct (llm_complete ext _ _) as [response|e];
      [|unfold completion_calls; simpl; lia].
    destruct (json_loads ext _) as [[]|[]]; unfold completion_calls; simpl; lia.
  - intros [-> | Hclick]; [done|].
    destruct (uploaded_file inp); [|done]. by rewrite Hclick.
Qed.

(** X5. A run that was not started by the button leaves the stored invoice
    as it is, whatever the boxes show; and when in addition no box was set
    by the user, it leaves the whole session as it is, also when the stored
    invoice is malformed and the run raises. *)
Theorem rerun_keeps_the_session (ext : externals) (inp : run_input) (st : session) :
  uploaded_file inp = None ∨ process_clicked inp = false →
  invoice_data (final (script ext inp st)) = invoice_data st
  ∧ ((∀ i, p1_box inp i = None) → (∀ i, p2_box inp i = None) →
     final (script ext inp st) = st).
Proof.
  intros Hclick.
  assert (final (script ext inp st) = final (display inp st)) as ->.
  { rewrite final_script. destruct Hclick as [-> | Hclick]; [done|].
    destruct (uploaded_file inp); [|done]. by rewrite Hclick. }
  destruct (display_final inp st) as (m & _ & ->). split; [done|].
  intros H1 H2. rewrite !sync_untouched by auto. by destruct st.
Qed.

Lemma rerun_keeps_the_session_witness :
  invoice_data (final (script scenario_ext (toggle_input Person1 0 scenario_session)
                         scenario_session))
  = invoice_data scenario_session.
Proof.
  apply (rerun_keeps_the_session scenario_ext
           (toggle_input Person1 0 scenario_session) scenario_session).
  left. reflexivity.
Defined.

(** X6. After any sequence of runs from the initial session, with any
    collaborators and any user input, neither list holds an index twice. *)
Theorem lists_hold_no_index_twice (runs : list (externals * run_input)) :
  NoDup (person1_items (after_runs runs initial_session))
  ∧ NoDup (person2_items (after_runs runs initial_session)).
Proof.
  destruct (consistent_after_runs runs _ consistent_initial) as (H1 & H2 & _).
  done.
Qed.

(** ** Two clicks on the same box *)

Lemma toggle_final ext who i st items :
  line_items_of st = Some (JArr items) →
  Forall displayable items →
  i < length items →
  toggle ext who i st
  = {| invoice_data := invoice_data st;
       person1_items :=
         match who with
         | Person1 => update_items (negb (contains i (person1_items st))) i
                        (person1_items st)
         | Person2 => person1_items st
         end;
       person2_items :=
         match who with
         | Person2 => update_items (negb (contains i (person2_items st))) i
                        (person2_items st)
         | Person1 => person2_items st
         end |}.
Proof.
  intros Hline Hall Hi.
  assert (Hne : items ≠ []) by (intros ->; simpl in Hi; lia).
  unfold toggle. rewrite final_script. simpl.
  rewrite (display_displayable _ _ _ Hline Hne Hall).
  destruct who; simpl; f_equal;
    first [ apply sync_single; lia | by apply sync_untouched ].
Qed.

Lemma remove_snoc i items : i ∉ items → remove i (items ++ [i]) = items.
Proof.
  induction items as [|j items IH]; simpl.
  - intros _. by rewrite decide_True.
  - intros [Hne Hi]%not_elem_of_cons. rewrite decide_False by done.
    by rewrite IH.
Qed.

Lemma remove_Permutation i items : i ∈ items → remove i items ++ [i] ≡ₚ items.
Proof.
  induction items as [|j items IH]; [by intros ?%elem_of_nil|]. simpl.
  case_decide as Hj.
  - subst. intros _. by rewrite <- Permutation_cons_append.
  - intros [->|Hi]%elem_of_cons; [done|]. simpl. by rewrite IH.
Qed.

Lemma line_items_of_toggle ext who i st items :
  line_items_of st = Some (JArr items) →
  Forall displayable items →
  i < length items →
  line_items_of (toggle ext who i st) = Some (JArr items).
Proof.
  intros Hline Hall Hi. rewrite (toggle_final _ _ _ _ _ Hline Hall Hi).
  by destruct who.
Qed.

(** X7. In a session whose rows all display, two clicks on the same box
    bring the list of that person back to the same indices (to the very same
    list when the index was not in it, and otherwise with the index moved to
    the end), and leave the list of the other person as it was. *)
Theorem two_clicks_restore_the_list (ext : externals) (who : person) (i : nat)
    (st : session) (items : list json) :
  line_items_of st = Some (JArr items) →
  Forall displayable items →
  i < length items →
  NoDup (items_of who st) →
  items_of who (toggle ext who i (toggle ext who i st)) ≡ₚ items_of who st
  ∧ (i ∉ items_of who st →
     items_of who (toggle ext who i (toggle ext who i st)) = items_of who st)
  ∧ (i ∈ items_of who st →
     items_of who (toggle ext who i (toggle ext who i st))
     = remove i (items_of who st) ++ [i])
  ∧ items_of (other who) (toggle ext who i (toggle ext who i st))
    = items_of (other who) st.
Proof.
  intros Hline Hall Hi Hnd.
  pose proof (line_items_of_toggle ext who i st items Hline Hall Hi) as Hline'.
  assert (Hown : items_of who (toggle ext who i (toggle ext who i st))
    = if contains i (items_of who st) then remove i (items_of who st) ++ [i]
      else items_of who st).
  { rewrite (toggle_final _ _ _ _ _ Hline' Hall Hi).
    rewrite (toggle_final _ _ _ _ _ Hline Hall Hi).
    assert (∀ l, NoDup l →
      update_items (negb (contains i (update_items (negb (contains i l)) i l))) i
        (update_items (negb (contains i l)) i l)
      = if contains i l then remove i l ++ [i] else l) as Htwice.
    { intros l Hl. rewrite !update_items_flip.
      destruct (contains i l) eqn:Hc.
      - by rewrite (proj2 (contains_false i (remove i l)) (not_elem_of_remove i l Hl)).
      - apply contains_false in Hc.
        assert (contains i (l ++ [i]) = true) as ->.
        { apply contains_true, elem_of_app. right. apply list_elem_of_here. }
        by apply remove_snoc. }
    destruct who; simpl in *; by apply Htwice. }
  split_and!.
  - rewrite Hown. destruct (contains i (items_of who st)) eqn:Hc; [|done].
    by apply remove_Permutation, contains_true.
  - intros Hnot. rewrite Hown. by rewrite (proj2 (contains_false _ _) Hnot).
  - intros Hyes. rewrite Hown. by rewrite (proj2 (contains_true _ _) Hyes).
  - rewrite (toggle_final _ _ _ _ _ Hline' Hall Hi).
    rewrite (toggle_final _ _ _ _ _ Hline Hall Hi).
    by destruct who.
Qed.

Lemma two_clicks_restore_the_list_witness :
  items_of Person1 (toggle scenario_ext Person1 1 (toggle scenario_ext Person1 1 scenario_session))
    ≡ₚ items_of Person1 scenario_session.
Proof.
  destruct (two_clicks_restore_the_list scenario_ext Person1 1 scenario_session
              [JObj (<[lit "item_name" := JStr (lit "Widget")]>
                       (<[lit "total_price" := JNum (PFloat (decimal 1000 (-1)))]> ∅));
               JObj (<[lit "item_name" := JStr (lit "Gadget")]>
                       (<[lit "total_price" := JNum (PFloat (decimal 500 (-1)))]> ∅))])
    as (Hperm & _).
  - vm_compute. reflexivity.
  - repeat constructor; vm_compute; eauto.
  - simpl. lia.
  - vm_compute. constructor.
  - exact Hperm.
Defined.

(** ** When the totals are computed *)

Lemma sum_prices_step items i rest acc :
  sum_prices (JArr items) (i :: rest) acc
  = match items !! i with
    | None => Raise IndexError
    | Some item =>
        match price_of item with
        | Some price =>
            match add acc price with
            | Ok acc => sum_prices (JArr items) rest acc
            | Raise e => Raise e
            end
        | None =>
            match item with
            | JObj fields =>
                match fields !! lit "total_price" with
                | None => Raise KeyError
                | Some _ => Raise TypeError
                end
            | _ => Raise TypeError
            end
        end
    end.
Proof.
  simpl. destruct (items !! i) as [item|]; [|done].
  destruct item; try done. simpl.
  destruct (fields !! lit "total_price") as [v|]; [|done]. simpl.
  destruct (as_number v) as [price|]; [|done]. by destruct (add acc price).
Qed.

(** X8. For prices that are ints, the total of a person does not depend on
    the order in which the rows were ticked: the sum of lines 197-200 is
    computed for every arrangement of the list, with the same value. (For
    float prices it is not: see [float_total_depends_on_click_order].) *)
Theorem total_ignores_click_order (items : list json) (selected selected' : list nat) :
  Forall (λ item, is_Some (int_price item)) items →
  (∀ i, i ∈ selected → i < length items) →
  selected ≡ₚ selected' →
  is_Ok (person_total (JArr items) selected)
  ∧ person_total (JArr items) selected' = person_total (JArr items) selected.
Proof.
  intros Hall Hrange Hperm. unfold person_total.
  rewrite (sum_prices_int _ _ _ Hall Hrange).
  rewrite (sum_prices_int items selected' 0 Hall)
    by (intros i Hi; apply Hrange; by rewrite Hperm).
  split; [by eexists|]. do 2 f_equal. simpl.
  apply sum_Z_perm, fmap_Permutation. by symmetry.
Qed.

Lemma total_ignores_click_order_witness :
  person_total
    (JArr [JObj {[lit "total_price" := JNum (PInt 100)]};
           JObj {[lit "total_price" := JNum (PInt 7)]}]) [1; 0]
  = person_total
      (JArr [JObj {[lit "total_price" := JNum (PInt 100)]};
             JObj {[lit "total_price" := JNum (PInt 7)]}]) [0; 1].
Proof.
  apply (total_ignores_click_order
           [JObj {[lit "total_price" := JNum (PInt 100)]};
            JObj {[lit "total_price" := JNum (PInt 7)]}] [0; 1] [1; 0]).
  - repeat constructor; vm_compute; eauto.
  - intros i Hi. apply elem_of_cons in Hi as [->|Hi]; [simpl; lia|].
    apply list_elem_of_singleton in Hi as ->. simpl. lia.
  - apply Permutation_swap.
Defined.

(** ** What a run over displayable rows shows *)

Lemma raised_and_then r k :
  raised (and_then r k)
  = match raised r with Some e => Some e | None => raised (k (final r)) end.
Proof. unfold and_then. by destruct r as [? ? [?|]]. Qed.

Lemma row_shown_row inp i item st : shown (row inp i item st) = row_shown item.
Proof. destruct item; try done. simpl. by destruct (format_2f _). Qed.

Lemma rows_shown inp items : ∀ i st,
  Forall displayable items →
  shown (rows inp i items st) = mjoin (row_shown <$> items).
Proof.
  induction items as [|item items IH]; intros i st Hall; [done|].
  apply Forall_cons_1 in Hall as [Hd Hall]. simpl.
  rewrite shown_and_then, row_shown_row.
  destruct (row_displayable inp i item st Hd) as [_ ->]. by rewrite IH.
Qed.

Lemma float_priced_displayable item : float_priced item → displayable item.
Proof.
  destruct item as [| | | | |fields]; try done. simpl.
  destruct (fields !! lit "total_price") as [[| |[z|f]| | |]|]; try done;
    intros _; by eexists.
Qed.

Lemma add_float_total acc f :
  float_total acc → ∃ g, add acc (PFloat f) = Ok (PFloat g).
Proof. intros [->|[g ->]]; by eexists. Qed.

(** Over rows with float prices the sum stops only at a row without price,
    with [KeyError]. *)
Lemma sum_prices_float items selected : ∀ acc,
  Forall float_priced items →
  float_total acc →
  (∀ i, i ∈ selected → i < length items) →
  match sum_prices (JArr items) selected acc with
  | Ok r => float_total r
            ∧ ∀ i, i ∈ selected → ∃ item, items !! i = Some item ∧ has_price item
  | Raise e => e = KeyError
               ∧ ∃ i item, i ∈ selected ∧ items !! i = Some item ∧ ¬ has_price item
  end.
Proof.
  induction selected as [|i selected IH]; intros acc Hall Hacc Hrange.
  { simpl. split; [done|]. by intros i ?%elem_of_nil. }
  rewrite sum_prices_step.
  destruct (lookup_lt_is_Some_2 items i (Hrange i (list_elem_of_here _ _)))
    as [item Hitem].
  rewrite Hitem.
  pose proof (proj1 (Forall_lookup _ _) Hall i item Hitem) as Hfloat.
  destruct item as [| | | | |fields]; try done. simpl in *.
  destruct (fields !! lit "total_price") as [[| |[z|f]| | |]|] eqn:Hprice;
    try done; simpl.
  - destruct (add_float_total acc f Hacc) as [g ->].
    assert (Hrest : ∀ j, j ∈ selected → j < length items)
      by (intros j Hj; apply Hrange; by apply list_elem_of_further).
    specialize (IH (PFloat g) Hall (or_intror (ex_intro _ g eq_refl)) Hrest).
    destruct (sum_prices (JArr items) selected (PFloat g)) as [r|e].
    + destruct IH as [Hr Hin]. split; [done|].
      intros j [->|Hj]%elem_of_cons; [|auto].
      exists (JObj fields). split; [done|]. simpl. by rewrite Hprice.
    + destruct IH as [-> (j & item & Hj & Hjitem & Hno)]. split; [done|].
      exists j, item. split_and!; [by apply list_elem_of_further|done|done].
  - split; [done|]. exists i, (JObj fields).
    split_and!; [apply list_elem_of_here | done |].
    simpl. rewrite Hprice. by intros [? ?].
Qed.

(** The summary of two such totals is shown whole. *)
Lemma summary_float_total a b :
  float_total a → float_total b →
  ∃ total1 total2 total half line,
    summary a b
    = ([Metric Person1 total1; Metric Person2 total2; TotalExpense total;
        SplitAmount half; line], None).
Proof.
  intros [->|[f ->]] [->|[g ->]]; unfold summary, who_owes; simpl.
  - by eexists _, _, _, _, _.
  - destruct (gt _ _); simpl; [by eexists _, _, _, _, _|].
    destruct (gt _ _); simpl; by eexists _, _, _, _, _.
  - destruct (gt _ _); simpl; [by eexists _, _, _, _, _|].
    destruct (gt _ _); simpl; by eexists _, _, _, _, _.
  - destruct (gt _ _); simpl; [by eexists _, _, _, _, _|].
    destruct (gt _ _); simpl; by eexists _, _, _, _, _.
Qed.

Lemma display_parts inp st items :
  line_items_of st = Some (JArr items) →
  items ≠ [] →
  ∃ fields,
    invoice_data st = Some (JObj fields)
    ∧ display inp st
      = and_then
          (completed st
             [InvoiceId (default not_available (fields !! lit "invoice_id"));
              InvoiceDate (default not_available (fields !! lit "date"))])
          (split_interface inp (JArr items)).
Proof.
  unfold line_items_of, display.
  destruct (invoice_data st) as [[| | | | |fields]|] eqn:Hdata; try done.
  intros Hline Hne. exists fields. split; [done|].
  assert (truthy (JObj fields) = true) as ->.
  { simpl. apply negb_true_iff, bool_decide_eq_false. by intros ->. }
  simpl. rewrite Hline.
  assert (truthy (JArr items) = true) as ->.
  { simpl. by apply negb_true_iff, bool_decide_eq_false. }
  done.
Qed.

(** The run of the display over rows with float prices, in one equation. *)
Lemma display_float_priced inp st items :
  line_items_of st = Some (JArr items) →
  items ≠ [] →
  Forall float_priced items →
  ∃ fields,
    invoice_data st = Some (JObj fields)
    ∧ display inp st
      = let st' := {| invoice_data := invoice_data st;
                      person1_items
                      := sync (p1_box inp) 0 (length items) (person1_items st);
                      person2_items
                      := sync (p2_box inp) 0 (length items) (person2_items st) |} in
        let header := [InvoiceId (default not_available (fields !! lit "invoice_id"));
                       InvoiceDate (default not_available (fields !! lit "date"))]
                      ++ mjoin (row_shown <$> items) in
        match person_total (JArr items) (person1_items st') with
        | Raise e => crashed st' header e
        | Ok a =>
            match person_total (JArr items) (person2_items st') with
            | Raise e => crashed st' header e
            | Ok b =>
                {| final := st'; shown := header ++ (summary a b).1;
                   raised := (summary a b).2 |}
            end
        end.
Proof.
  intros Hline Hne Hfloat.
  assert (Hall : Forall displayable items).
  { eapply Forall_impl; [done|]. apply float_priced_displayable. }
  destruct (display_parts inp st items Hline Hne) as (fields & Hdata & ->).
  exists fields. split; [done|].
  destruct (rows_final inp items 0 st) as (m & _ & _ & Hrows & Hm).
  destruct (Hm Hall) as [-> Hraised].
  unfold and_then at 1. simpl. unfold split_interface. simpl.
  unfold and_then. rewrite Hraised, Hrows, (rows_shown inp items 0 st Hall). simpl.
  destruct (person_total _ _) as [a|e]; simpl; [|by rewrite app_nil_r].
  destruct (person_total _ _) as [b|e]; simpl; [|by rewrite app_nil_r].
  done.
Qed.

(** X9. In a session whose rows all have a float for price or no price at
    all, and whose indices are in range, a run of the display raises nothing
    or [KeyError]; it raises nothing exactly when every row that is assigned
    at the end of the run has the key ['total_price']: a row without the key
    is shown with the price 0.00, and makes the sums of lines 197-200 raise
    once it is assigned. *)
Theorem run_completes_iff_assigned_rows_have_price (inp : run_input)
    (st : session) (items : list json) :
  line_items_of st = Some (JArr items) →
  items ≠ [] →
  Forall float_priced items →
  valid_indices st →
  (raised (display inp st) = None ∨ raised (display inp st) = Some KeyError)
  ∧ (raised (display inp st) = None
     ↔ ∀ i, i ∈ person1_items (final (display inp st))
            ∨ i ∈ person2_items (final (display inp st)) →
            ∃ item, items !! i = Some item ∧ has_price item).
Proof.
  intros Hline Hne Hfloat Hvalid.
  assert (Hcount : line_count st = length items).
  { unfold line_count. by rewrite Hline. }
  destruct (display_float_priced inp st items Hline Hne Hfloat)
    as (fields & Hdata & ->). cbv zeta.
  set (l1 := sync (p1_box inp) 0 (length items) (person1_items st)).
  set (l2 := sync (p2_box inp) 0 (length items) (person2_items st)).
  assert (Hrange : ∀ box l, (∀ i, i ∈ l → i < length items) →
            ∀ i, i ∈ sync box 0 (length items) l → i < length items).
  { intros box l Hl i [H|H]%elem_of_sync_inv; [auto|lia]. }
  assert (Hr1 : ∀ i, i ∈ l1 → i < length items).
  { apply Hrange. intros i Hi. rewrite <- Hcount. apply Hvalid. auto. }
  assert (Hr2 : ∀ i, i ∈ l2 → i < length items).
  { apply Hrange. intros i Hi. rewrite <- Hcount. apply Hvalid. auto. }
  pose proof (sum_prices_float items l1 (PInt 0) Hfloat (or_introl eq_refl) Hr1) as H1.
  pose proof (sum_prices_float items l2 (PInt 0) Hfloat (or_introl eq_refl) Hr2) as H2.
  unfold person_total. simpl person1_items. simpl person2_items.
  destruct (sum_prices (JArr items) l1 (PInt 0)) as [a|e1].
  - destruct H1 as [Ha Hin1].
    destruct (sum_prices (JArr items) l2 (PInt 0)) as [b|e2].
    + destruct H2 as [Hb Hin2].
      destruct (summary_float_total a b Ha Hb) as (? & ? & ? & ? & ? & ->).
      simpl. split; [by left|]. split; [|done].
      intros _ i [Hi|Hi]; auto.
    + destruct H2 as [-> (j & item & Hj & Hitem & Hno)].
      simpl. split; [by right|]. split; [done|]. intros Hall.
      destruct (Hall j (or_intror Hj)) as (item' & Hitem' & Hp). congruence.
  - destruct H1 as [-> (j & item & Hj & Hitem & Hno)].
    simpl. split; [by right|]. split; [done|]. intros Hall.
    destruct (Hall j (or_introl Hj)) as (item' & Hitem' & Hp). congruence.
Qed.

Lemma run_completes_iff_assigned_rows_have_price_witness :
  (raised (display (toggle_input Person1 0 unpriced_session) unpriced_session) = None
   ∨ raised (display (toggle_input Person1 0 unpriced_session) unpriced_session)
     = Some KeyError)
  ∧ (raised (display (toggle_input Person1 0 unpriced_session) unpriced_session) = None
     ↔ ∀ i, i ∈ person1_items
                  (final (display (toggle_input Person1 0 unpriced_session)
                            unpriced_session))
            ∨ i ∈ person2_items
                    (final (display (toggle_input Person1 0 unpriced_session)
                              unpriced_session)) →
            ∃ item, [JObj {[ lit "item_name" := JStr (lit "Widget") ]}] !! i = Some item
                    ∧ has_price item).
Proof.
  apply (run_completes_iff_assigned_rows_have_price
           (toggle_input Person1 0 unpriced_session) unpriced_session
           [JObj {[ lit "item_name" := JStr (lit "Widget") ]}]).
  - vm_compute. reflexivity.
  - done.
  - repeat constructor.
  - intros i [Hi|Hi]; by apply elem_of_nil in Hi.
Defined.

Example unpriced_row_is_shown_then_fails :
  shown (display (toggle_input Person1 0 unpriced_session) unpriced_session)
  = [InvoiceId not_available; InvoiceDate not_available;
     RowName (JStr (lit "Widget")); RowPrice (S754_zero false)]
  ∧ raised (display (toggle_input Person1 0 unpriced_session) unpriced_session)
    = Some KeyError.
Proof. split; vm_compute; reflexivity. Qed.

(** An int that is too large for a float fails where it is written: as the
    price of a row in line 170, as a total in line 207 or 209, as the total
    expense in line 217. *)
Example overflowing_totals :
  raised (display (submit (lit "%PDF")) overflow_session) = None
  ∧ display {| uploaded_file := None; process_clicked := false;
               p1_box := λ _, None; p2_box := λ i, Some (bool_decide (0 < i)) |}
      overflow_session
    = crashed {| invoice_data := invoice_data overflow_session;
                 person1_items := []; person2_items := [1; 2] |}
        [InvoiceId not_available; InvoiceDate not_available;
         RowName (JStr (lit "Unknown item")); RowPrice (decimal 1 0);
         RowName (JStr (lit "Unknown item")); RowPrice (decimal 9 307);
         RowName (JStr (lit "Unknown item")); RowPrice (decimal 9 307);
         Metric Person1 (S754_zero false)]
        OverflowError.
Proof. split; vm_compute; reflexivity. Qed.

Lemma filter_ext_in {A} (P1 P2 : A → Prop) `{!∀ x, Decision (P1 x)}
    `{!∀ x, Decision (P2 x)} (l : list A) :
  (∀ x, x ∈ l → P1 x ↔ P2 x) → filter P1 l = filter P2 l.
Proof.
  induction l as [|x l IH]; intros Hext; [done|].
  rewrite !filter_cons.
  pose proof (Hext x (list_elem_of_here _ _)) as Hx.
  rewrite IH by (intros y Hy; apply Hext; by apply list_elem_of_further).
  destruct (decide (P1 x)), (decide (P2 x)); tauto || done.
Qed.

(** After the loop, the list of a person holds the rows whose box in that
    person's column shows as checked, in some order. *)
Lemma sync_checked_rows box l n :
  NoDup l → (∀ i, i ∈ l → i < n) →
  sync box 0 n l ≡ₚ checked_rows box l n.
Proof.
  intros Hnd Hrange.
  assert (Hin : ∀ i, i ∈ sync box 0 n l → i < n).
  { intros i [H|H]%elem_of_sync_inv; [auto|lia]. }
  rewrite (selected_perm (sync box 0 n l) n (NoDup_sync _ _ _ _ Hnd) Hin).
  unfold checked_rows.
  rewrite (filter_ext_in (λ i, i ∈ sync box 0 n l)
             (λ i, checkbox (box i) (contains i l) = true)); [done|].
  intros i [_ Hi]%elem_of_seq. apply elem_of_sync; [done|lia].
Qed.

(** X10. What a run shows for an invoice whose rows all have a float for
    price, in a session whose lists hold valid indices, none twice: nothing
    is raised; the two metadata lines are shown, every row with its name and
    price in the order of the invoice, and the five lines of the summary of
    the two totals; each total is the sum, as lines 197-200 compute it, over
    the list the run leaves, which holds the rows whose box in the column of
    that person shows as checked in this run. *)
Theorem run_shows_totals_of_checked_rows (inp : run_input) (st : session)
    (fields : gmap pystr json) (items : list json) :
  invoice_data st = Some (JObj fields) →
  fields !! lit "line_items" = Some (JArr items) →
  items ≠ [] →
  Forall (λ item, float_priced item ∧ has_price item) items →
  consistent st →
  ∃ a b total1 total2 total half line,
    raised (display inp st) = None
    ∧ person1_items (final (display inp st))
      ≡ₚ checked_rows (p1_box inp) (person1_items st) (length items)
    ∧ person2_items (final (display inp st))
      ≡ₚ checked_rows (p2_box inp) (person2_items st) (length items)
    ∧ person_total (JArr items) (person1_items (final (display inp st))) = Ok a
    ∧ person_total (JArr items) (person2_items (final (display inp st))) = Ok b
    ∧ summary a b
      = ([Metric Person1 total1; Metric Person2 total2; TotalExpense total;
          SplitAmount half; line], None)
    ∧ shown (display inp st)
      = [InvoiceId (default not_available (fields !! lit "invoice_id"));
         InvoiceDate (default not_available (fields !! lit "date"))]
        ++ mjoin (row_shown <$> items)
        ++ [Metric Person1 total1; Metric Person2 total2; TotalExpense total;
            SplitAmount half; line].
Proof.
  intros Hdata Hfields Hne Hpriced (Hnd1 & Hnd2 & Hvalid).
  assert (Hline : line_items_of st = Some (JArr items)).
  { unfold line_items_of. by rewrite Hdata. }
  assert (Hcount : line_count st = length items).
  { unfold line_count. by rewrite Hline. }
  assert (Hfloat : Forall float_priced items).
  { eapply Forall_impl; [done|]. by intros item [? _]. }
  destruct (display_float_priced inp st items Hline Hne Hfloat)
    as (fields' & Hdata' & ->). cbv zeta.
  assert (fields' = fields) as -> by congruence.
  set (l1 := sync (p1_box inp) 0 (length items) (person1_items st)).
  set (l2 := sync (p2_box inp) 0 (length items) (person2_items st)).
  assert (Hr1 : ∀ i, i ∈ person1_items st → i < length items).
  { intros i Hi. rewrite <- Hcount. apply Hvalid. auto. }
  assert (Hr2 : ∀ i, i ∈ person2_items st → i < length items).
  { intros i Hi. rewrite <- Hcount. apply Hvalid. auto. }
  assert (Hin : ∀ box l, (∀ i, i ∈ l → i < length items) →
            ∀ i, i ∈ sync box 0 (length items) l → i < length items).
  { intros box l Hl i [H|H]%elem_of_sync_inv; [auto|lia]. }
  assert (Htotal : ∀ l, (∀ i, i ∈ l → i < length items) →
            ∃ r, sum_prices (JArr items) l (PInt 0) = Ok r ∧ float_total r).
  { intros l Hl.
    pose proof (sum_prices_float items l (PInt 0) Hfloat (or_introl eq_refl) Hl) as H.
    destruct (sum_prices (JArr items) l (PInt 0)) as [r|e]; [by exists r; tauto|].
    destruct H as [_ (j & item & Hj & Hitem & Hno)].
    by destruct (proj1 (Forall_lookup _ _) Hpriced j item Hitem). }
  destruct (Htotal l1 (Hin _ _ Hr1)) as (a & Ha & Hfa).
  destruct (Htotal l2 (Hin _ _ Hr2)) as (b & Hb & Hfb).
  destruct (summary_float_total a b Hfa Hfb)
    as (total1 & total2 & total & half & line & Hsummary).
  exists a, b, total1, total2, total, half, line.
  unfold person_total. simpl person1_items. simpl person2_items.
  fold l1 l2. rewrite Ha, Hb, Hsummary. simpl.
  split_and!; try done.
  - by apply sync_checked_rows.
  - by apply sync_checked_rows.
Qed.

Lemma run_shows_totals_of_checked_rows_witness :
  ∃ a b total1 total2 total half line,
    raised (display (toggle_input Person1 1 scenario_session) scenario_session) = None
    ∧ person_total (JArr scenario_items)
        (person1_items (final (display (toggle_input Person1 1 scenario_session)
                                 scenario_session))) = Ok a
    ∧ person_total (JArr scenario_items)
        (person2_items (final (display (toggle_input Person1 1 scenario_session)
                                 scenario_session))) = Ok b
    ∧ summary a b
      = ([Metric Person1 total1; Metric Person2 total2; TotalExpense total;
          SplitAmount half; line], None)
    ∧ shown (display (toggle_input Person1 1 scenario_session) scenario_session)
      = [InvoiceId (JStr (lit "123")); InvoiceDate (JStr (lit "2024-01-05"));
         RowName (JStr (lit "Widget")); RowPrice (decimal 1000 (-1));
         RowName (JStr (lit "Gadget")); RowPrice (decimal 500 (-1));
         Metric Person1 total1; Metric Person2 total2; TotalExpense total;
         SplitAmount half; line].
Proof.
  destruct (run_shows_totals_of_checked_rows
              (toggle_input Person1 1 scenario_session) scenario_session
              (<[lit "invoice_id" := JStr (lit "123")]>
                 (<[lit "date" := JStr (lit "2024-01-05")]>
                    (<[lit "line_items" := JArr scenario_items]> ∅)))
              scenario_items)
    as (a & b & t1 & t2 & t & s & line & Hraised & _ & _ & Ha & Hb & Hsum & Hshown).
  - vm_compute. reflexivity.
  - vm_compute. reflexivity.
  - done.
  - repeat constructor; vm_compute; eauto.
  - split_and!; [vm_compute; constructor | vm_compute; constructor |].
    intros i [Hi|Hi]; vm_compute in Hi; by apply elem_of_nil in Hi.
  - exists a, b, t1, t2, t, s, line.
    split_and!; [exact Hraised | exact Ha | exact Hb | exact Hsum | exact Hshown].
Defined.

(** ** Where the summary can end *)

(** Once both totals were written, the settlement line does not raise. *)
Lemma who_owes_returns a b half :
  is_Ok (to_float a) → is_Ok (to_float b) → is_Ok (who_owes a b half).
Proof.
  intros [fa Ha] [fb Hb]. unfold who_owes.
  destruct (gt a b); [|destruct (gt b a)]; [| |by eexists].
  - destruct a as [z|f]; simpl in *; [rewrite Ha|]; by eexists.
  - destruct b as [z|f]; simpl in *; [rewrite Hb|]; by eexists.
Qed.

(** X11. The summary is cut short by no exception but [OverflowError], and
    only where a total is written: when it raises, nothing of it was shown
    but the total of person 1, or the totals of both persons; the total
    expense, the split amount and the settlement line are shown together or
    not at all. When it does not raise, its five lines are the two totals,
    their sum, half the sum, and the settlement of the two totals. Two
    totals of float prices never raise. *)
Theorem summary_ends_only_at_a_total (a b : number) :
  match (summary a b).2 with
  | None =>
      ∃ total1 total2 total_expense total half line,
        to_float a = Ok total1 ∧ to_float b = Ok total2
        ∧ add a b = Ok total_expense ∧ to_float total_expense = Ok total
        ∧ halve total_expense = Ok half
        ∧ settlement a b = Ok line
        ∧ (summary a b).1
          = [Metric Person1 total1; Metric Person2 total2; TotalExpense total;
             SplitAmount half; line]
  | Some e =>
      e = OverflowError
      ∧ ((summary a b).1 = []
         ∨ (∃ total1, (summary a b).1 = [Metric Person1 total1])
         ∨ (∃ total1 total2,
              (summary a b).1 = [Metric Person1 total1; Metric Person2 total2]))
  end
  ∧ (float_total a → float_total b → (summary a b).2 = None).
Proof.
  split.
  - unfold summary, settlement.
    destruct (to_float a) as [total1|e] eqn:Ha; simpl;
      [|split; [by eapply to_float_raise | by left]].
    destruct (to_float b) as [total2|e] eqn:Hb; simpl;
      [|split; [by eapply to_float_raise | right; left; by eexists]].
    destruct (add a b) as [total_expense|e] eqn:Hadd; simpl;
      [|split; [by eapply add_raise | right; right; by eexists _, _]].
    destruct (halve total_expense) as [half|e] eqn:Hhalve; simpl;
      [|split; [by eapply halve_raise | right; right; by eexists _, _]].
    destruct (to_float total_expense) as [total|e] eqn:Htotal; simpl;
      [|split; [by eapply to_float_raise | right; right; by eexists _, _]].
    destruct (who_owes_returns a b half) as [line Hline]; [by eexists..|].
    rewrite Hline. simpl. by eexists _, _, _, _, _, _.
  - intros Ha Hb.
    by destruct (summary_float_total a b Ha Hb) as (? & ? & ? & ? & ? & ->).
Qed.

(** ** A run that raises names no payer *)

Lemma no_event_and_then (p : event → bool) r k :
  existsb p (shown r) = false →
  (raised r = None → existsb p (shown (k (final r))) = false) →
  existsb p (shown (and_then r k)) = false.
Proof.
  intros Hr Hk. rewrite shown_and_then, existsb_app, Hr. simpl.
  destruct (raised r); [done | by apply Hk].
Qed.

Lemma rows_no_summary inp items : ∀ i st,
  existsb is_summary (shown (rows inp i items st)) = false.
Proof.
  induction items as [|item items IH]; intros i st; [done|]. simpl.
  apply no_event_and_then; [|auto].
  rewrite row_shown_row. destruct item; try done. simpl. by destruct (format_2f _).
Qed.

Lemma is_settlement_summary evs :
  existsb is_summary evs = false → existsb is_settlement evs = false.
Proof.
  induction evs as [|e evs IH]; [done|]. simpl.
  intros [He Hevs]%orb_false_iff. rewrite (IH Hevs). by destruct e.
Qed.

Lemma extract_no_summary ext pdf :
  existsb is_summary (extract_invoice_data ext pdf).1 = false.
Proof. unfold extract_invoice_data. by repeat case_match. Qed.

(** A summary that raises has shown no settlement line, and it raises
    nothing but [OverflowError]. *)
Lemma summary_raises a b e :
  (summary a b).2 = Some e →
  e = OverflowError ∧ existsb is_settlement (summary a b).1 = false.
Proof.
  unfold summary.
  destruct (to_float a) as [total1|e1] eqn:Ha; simpl;
    [|intros [= <-]; split; [by eapply to_float_raise | done]].
  destruct (to_float b) as [total2|e1] eqn:Hb; simpl;
    [|intros [= <-]; split; [by eapply to_float_raise | done]].
  destruct (add a b) as [total_expense|e1] eqn:Hadd; simpl;
    [|intros [= <-]; split; [by eapply add_raise | done]].
  destruct (halve total_expense) as [half|e1] eqn:Hhalve; simpl;
    [|intros [= <-]; split; [by eapply halve_raise | done]].
  destruct (to_float total_expense) as [total|e1] eqn:Htotal; simpl;
    [|intros [= <-]; split; [by eapply to_float_raise | done]].
  destruct (who_owes_returns a b half) as [line Hline]; [by eexists..|].
  by rewrite Hline.
Qed.

Lemma display_raises inp st e :
  raised (display inp st) = Some e →
  existsb is_settlement (shown (display inp st)) = false
  ∧ (e ≠ OverflowError → existsb is_summary (shown (display inp st)) = false).
Proof.
  unfold display. repeat case_match; try done; try (by intros [= <-]).
  rewrite raised_and_then. simpl. intros Hraised.
  unfold split_interface in *.
  destruct (iterate _) as [items|e']; [|by simplify_eq/=].
  rewrite raised_and_then in Hraised.
  pose proof (rows_no_summary inp items 0 st) as Hrows.
  split.
  - apply no_event_and_then; [by apply is_settlement_summary|].
    intros Hnone. rewrite Hnone in Hraised.
    repeat case_match; try done. simpl in *.
    by apply summary_raises in Hraised as [_ ?].
  - intros Hne. apply no_event_and_then; [done|].
    intros Hnone. rewrite Hnone in Hraised.
    repeat case_match; try done. simpl in *.
    by apply summary_raises in Hraised as [-> _].
Qed.

(** X12. A run of the script that ends in an exception has named no payer:
    the settlement line was not shown. Unless the exception is
    [OverflowError], which ends the summary after a total, no line of the
    summary was shown at all: no total of a person, no total expense and no
    split amount. *)
Theorem failed_run_names_no_payer (ext : externals) (inp : run_input)
    (st : session) (e : exn) :
  raised (script ext inp st) = Some e →
  existsb is_settlement (shown (script ext inp st)) = false
  ∧ (e ≠ OverflowError → existsb is_summary (shown (script ext inp st)) = false).
Proof.
  unfold script. rewrite raised_and_then.
  set (first := match uploaded_file inp with
                | Some pdf => if process_clicked inp then process_invoice ext pdf st
                              else completed st []
                | None => completed st []
                end).
  assert (Hfirst : existsb is_summary (shown first) = false).
  { unfold first, process_invoice. repeat case_match; try done;
      match goal with
      | H : extract_invoice_data ?x ?p = _ |- _ =>
          pose proof (extract_no_summary x p) as Hs; by rewrite H in Hs
      end. }
  intros Hraised. split.
  - apply no_event_and_then; [by apply is_settlement_summary|].
    intros Hnone. rewrite Hnone in Hraised.
    by apply display_raises in Hraised as [? _].
  - intros Hne. apply no_event_and_then; [done|].
    intros Hnone. rewrite Hnone in Hraised.
    apply display_raises in Hraised as [_ ?]. auto.
Qed.

Lemma failed_run_names_no_payer_witness :
  existsb is_settlement
    (shown (script scenario_ext (toggle_input Person1 0 unpriced_session)
              unpriced_session)) = false
  ∧ existsb is_summary
      (shown (script scenario_ext (toggle_input Person1 0 unpriced_session)
                unpriced_session)) = false.
Proof.
  destruct (failed_run_names_no_payer scenario_ext
              (toggle_input Person1 0 unpriced_session) unpriced_session KeyError)
    as [Hpayer Hsummary].
  - vm_compute. reflexivity.
  - split; [exact Hpayer | by apply Hsummary].
Defined.

(** ** A value of ['line_items'] that is no list *)

(** X13. When the value of ['line_items'] is truthy and no list, the display
    shows the two metadata lines and raises, leaving the session as it was:
    [TypeError] for a number or a boolean (it cannot be enumerated),
    [AttributeError] for a text or a dict (their elements, characters or
    keys, have no [get]). *)
Theorem line_items_must_be_a_list (inp : run_input) (st : session)
    (fields : gmap pystr json) (line_items : json) :
  invoice_data st = Some (JObj fields) →
  fields !! lit "line_items" = Some line_items →
  truthy line_items = true →
  (∀ items, line_items ≠ JArr items) →
  display inp st
  = crashed st
      [InvoiceId (default not_available (fields !! lit "invoice_id"));
       InvoiceDate (default not_available (fields !! lit "date"))]
      match line_items with
      | JStr _ | JObj _ => AttributeError
      | _ => TypeError
      end.
Proof.
  intros Hdata Hfields Htruthy Hlist. unfold display. rewrite Hdata.
  assert (truthy (JObj fields) = true) as ->.
  { simpl. apply negb_true_iff, bool_decide_eq_false. intros ->.
    by rewrite lookup_empty in Hfields. }
  simpl. rewrite Hfields, Htruthy.
  unfold and_then at 1. simpl. unfold split_interface.
  destruct line_items as [|b|q|s|items|fields']; simpl in *.
  - done.
  - by destruct st.
  - by destruct st.
  - destruct s as [|c s]; [done|]. simpl. by destruct st.
  - by destruct (Hlist items).
  - destruct (map_to_list fields') as [|[k v] kvs] eqn:Hkvs.
    + apply map_to_list_empty_iff in Hkvs as ->. done.
    + simpl. by destruct st.
Qed.

Lemma line_items_must_be_a_list_witness :
  display (submit (lit "%PDF"))
    {| invoice_data := Some (JObj {[ lit "line_items" := JNum (PInt 3) ]});
       person1_items := []; person2_items := [] |}
  = crashed
      {| invoice_data := Some (JObj {[ lit "line_items" := JNum (PInt 3) ]});
         person1_items := []; person2_items := [] |}
      [InvoiceId not_available; InvoiceDate not_available] TypeError.
Proof.
  etrans.
  - apply (line_items_must_be_a_list (submit (lit "%PDF"))
             {| invoice_data := Some (JObj {[ lit "line_items" := JNum (PInt 3) ]});
                person1_items := []; person2_items := [] |}
             {[ lit "line_items" := JNum (PInt 3) ]} (JNum (PInt 3))).
    + reflexivity.
    + vm_compute. reflexivity.
    + reflexivity.
    + done.
  - vm_compute. reflexivity.
Defined.

(** ** A row that cannot be displayed *)

Lemma row_raises inp i item st :
  ¬ displayable item →
  row inp i item st
  = crashed st (row_shown item)
      match item with
      | JObj fields =>
          match fields !! lit "total_price" with
          | Some (JStr _) => ValueError
          | Some (JNum _) | Some (JBool _) => OverflowError
          | _ => TypeError
          end
      | _ => AttributeError
      end.
Proof.
  destruct item as [| | | | |fields]; try done. simpl. intros Hnot.
  destruct (fields !! lit "total_price") as [v|]; simpl in *.
  - destruct (format_2f v) as [written|e] eqn:Hv; [destruct Hnot; by eexists|].
    f_equal. unfold format_2f in Hv.
    destruct v as [|b|n| | |]; simpl in Hv; try by simplify_eq.
    + by eapply nearest_float_raise.
    + by eapply to_float_raise.
  - destruct Hnot. by eexists.
Qed.

Lemma rows_stop inp pre bad post : ∀ k st,
  Forall displayable pre →
  ¬ displayable bad →
  rows inp k (pre ++ bad :: post) st
  = {| final := final (row inp (k + length pre) bad
                         {| invoice_data := invoice_data st;
                            person1_items
                            := sync (p1_box inp) k (length pre) (person1_items st);
                            person2_items
                            := sync (p2_box inp) k (length pre) (person2_items st) |});
       shown := mjoin (row_shown <$> pre) ++ row_shown bad;
       raised := raised (row inp (k + length pre) bad st) |}.
Proof.
  induction pre as [|item pre IH]; intros k st Hpre Hbad.
  - simpl. rewrite Nat.add_0_r, !(row_raises _ _ _ _ Hbad). by destruct st.
  - apply Forall_cons_1 in Hpre as [Hitem Hpre].
    change ((item :: pre) ++ bad :: post) with (item :: (pre ++ bad :: post)).
    cbn [rows]. unfold and_then.
    destruct (row_displayable inp k item st Hitem) as [Hfinal ->].
    rewrite (IH (S k) _ Hpre Hbad), Hfinal, row_shown_row.
    simpl. rewrite !(row_raises _ _ _ _ Hbad). simpl.
    by rewrite <- app_assoc.
Qed.

(** X14. A row that cannot be displayed (no dict, or a price that cannot be
    written with two decimals) ends the run at that row: the rows before it
    were shown and their boxes were applied to the session, which keeps
    these changes; of the row itself only the name was shown (nothing when
    it is no dict); no later row and no summary is shown; the exception is
    [AttributeError] for a row that is no dict, [ValueError] for a price
    that is a text, [OverflowError] for a price that is an int too large for
    a float, and [TypeError] for any other price. *)
Theorem bad_row_ends_the_run (inp : run_input) (st : session)
    (fields : gmap pystr json) (pre post : list json) (bad : json) :
  invoice_data st = Some (JObj fields) →
  fields !! lit "line_items" = Some (JArr (pre ++ bad :: post)) →
  Forall displayable pre →
  ¬ displayable bad →
  display inp st
  = crashed
      {| invoice_data := invoice_data st;
         person1_items := sync (p1_box inp) 0 (length pre) (person1_items st);
         person2_items := sync (p2_box inp) 0 (length pre) (person2_items st) |}
      ([InvoiceId (default not_available (fields !! lit "invoice_id"));
        InvoiceDate (default not_available (fields !! lit "date"))]
       ++ mjoin (row_shown <$> pre)
       ++ match bad with
          | JObj row_fields =>
              [RowName (default (JStr (lit "Unknown item"))
                          (row_fields !! lit "item_name"))]
          | _ => []
          end)
      match bad with
      | JObj row_fields =>
          match row_fields !! lit "total_price" with
          | Some (JStr _) => ValueError
          | Some (JNum _) | Some (JBool _) => OverflowError
          | _ => TypeError
          end
      | _ => AttributeError
      end.
Proof.
  intros Hdata Hfields Hpre Hbad.
  assert (Hline : line_items_of st = Some (JArr (pre ++ bad :: post))).
  { unfold line_items_of. by rewrite Hdata. }
  destruct (display_parts inp st _ Hline) as (fields' & Hdata' & ->).
  { by destruct pre. }
  assert (fields' = fields) as -> by congruence.
  unfold and_then at 1. simpl. unfold split_interface. simpl.
  rewrite (rows_stop _ _ _ _ _ _ Hpre Hbad), !(row_raises _ _ _ _ Hbad).
  unfold and_then. simpl. unfold crashed. do 2 f_equal.
  do 3 f_equal. destruct bad as [| | | | |row_fields]; try done. simpl.
  destruct (format_2f _) eqn:Hformat; [|done].
  destruct Hbad. simpl. by eexists.
Qed.

Lemma bad_row_ends_the_run_witness :
  display {| uploaded_file := None; process_clicked := false;
             p1_box := λ _, Some true; p2_box := λ _, None |}
    text_price_session
  = crashed
      {| invoice_data := invoice_data text_price_session;
         person1_items := [0]; person2_items := [] |}
      [InvoiceId not_available; InvoiceDate not_available;
       RowName (JStr (lit "Unknown item")); RowPrice (decimal 1000 (-1));
       RowName (JStr (lit "Unknown item"))]
      ValueError.
Proof.
  etrans.
  - apply (bad_row_ends_the_run _ text_price_session
             {[ lit "line_items"
                := JArr [JObj {[ lit "total_price" := JNum (PInt 100) ]};
                         JObj {[ lit "total_price" := JStr (lit "50.00") ]};
                         JObj {[ lit "total_price" := JNum (PInt 7) ]}] ]}
             [JObj {[ lit "total_price" := JNum (PInt 100) ]}]
             [JObj {[ lit "total_price" := JNum (PInt 7) ]}]
             (JObj {[ lit "total_price" := JStr (lit "50.00") ]})).
    + reflexivity.
    + vm_compute. reflexivity.
    + repeat constructor. vm_compute. eauto.
    + vm_compute. by intros [? ?].
  - vm_compute. reflexivity.
Defined.

(** A price that is an int of 310 digits is such a row. *)
Example int_price_too_large :
  ¬ displayable (JObj {[ lit "total_price" := JNum (PInt (10 ^ 309)) ]})
  ∧ row (submit (lit "%PDF")) 0
      (JObj {[ lit "total_price" := JNum (PInt (10 ^ 309)) ]}) initial_session
    = crashed initial_session [RowName (JStr (lit "Unknown item"))] OverflowError.
Proof. split; [vm_compute; by intros [? ?] | vm_compute; reflexivity]. Qed.

(** * Properties of [main.py] *)

Example main_prompt_head_length : length MainScript.prompt_head = 462.
Proof. vm_compute. reflexivity. Qed.

Example main_page_block :
  MainScript.page_block 11 (lit "  Widget 100.00 " ++ nl)
  = lit "--- PAGE 12 ---" ++ nl ++ lit "Widget 100.00" ++ nl ++ nl.
Proof. vm_compute. reflexivity. Qed.

Lemma add_pages_join documents : ∀ i full_text,
  MainScript.add_pages i documents full_text
  = full_text ++ mjoin (imap (λ j, MainScript.page_block (i + j)) documents).
Proof.
  induction documents as [|doc documents IH]; intros i full_text.
  - simpl. by rewrite app_nil_r.
  - cbn [MainScript.add_pages]. rewrite IH, imap_cons.
    cbn [mjoin list_join]. rewrite Nat.add_0_r, <- app_assoc. do 3 f_equal.
    apply imap_ext. intros j d _. cbn [compose]. f_equal. lia.
Qed.

Lemma estimate_exceeds n :
  Qgt_bool (inject_Z (Z.of_nat n) / 4) MainScript.max_safe_tokens = true
  ↔ (24000 < Z.of_nat n)%Z.
Proof.
  rewrite Qgt_bool_true. unfold MainScript.max_safe_tokens, Qlt, Qdiv, Qmult, Qinv.
  simpl. lia.
Qed.

(** X15. The text [extract_text_from_pdf] of [main.py] returns is the
    sequence of all pages, each stripped of its outer whitespace, headed by
    its marker with the page number counted from 1 and followed by an empty
    line; the function announces the number of pages, and it prints the
    warning exactly when the text has more than 24000 characters; in either
    case the text is returned whole. *)
Theorem main_text_has_every_page (ext : externals) (pdf_path : pystr)
    (documents : list pystr) :
  pdf_load_data ext pdf_path = Ok documents →
  ∃ text,
    text = mjoin (imap MainScript.page_block documents)
    ∧ MainScript.extract_text_from_pdf ext pdf_path
      = (MainScript.PagesFound (length documents)
         :: (if decide (24000 < Z.of_nat (length text))%Z
             then [MainScript.LargeWarning (inject_Z (Z.of_nat (length text)) / 4)]
             else []),
         Ok text).
Proof.
  intros Hload. exists (mjoin (imap MainScript.page_block documents)).
  split; [reflexivity|].
  unfold MainScript.extract_text_from_pdf. rewrite Hload, add_pages_join.
  change ([] ++ mjoin (imap (λ j, MainScript.page_block (0 + j)) documents))
    with (mjoin (imap MainScript.page_block documents)).
  cbv zeta. generalize (mjoin (imap MainScript.page_block documents)). intros text.
  case_decide as Hlong.
  - by rewrite (proj2 (estimate_exceeds _) Hlong).
  - destruct (Qgt_bool _ _) eqn:Hgt; [|done].
    by apply estimate_exceeds in Hgt.
Qed.

Lemma main_text_has_every_page_witness :
  ∃ text,
    text = mjoin (imap MainScript.page_block [lit " Widget 100.00 "; lit "Gadget 50.00" ++ nl])
    ∧ MainScript.extract_text_from_pdf
        {| os_getenv := λ _, None;
           pdf_load_data := λ _, Ok [lit " Widget 100.00 "; lit "Gadget 50.00" ++ nl];
           llm_complete := λ _ _, Raise CompletionError;
           json_loads := λ _, Raise JSONDecodeError |}
        MainScript.pdf_path
      = (MainScript.PagesFound 2
         :: (if decide (24000 < Z.of_nat (length text))%Z
             then [MainScript.LargeWarning (inject_Z (Z.of_nat (length text)) / 4)]
             else []),
         Ok text).
Proof.
  apply (main_text_has_every_page
           {| os_getenv := λ _, None;
              pdf_load_data := λ _, Ok [lit " Widget 100.00 "; lit "Gadget 50.00" ++ nl];
              llm_complete := λ _ _, Raise CompletionError;
              json_loads := λ _, Raise JSONDecodeError |}).
  reflexivity.
Defined.

Example main_two_pages :
  mjoin (imap MainScript.page_block [lit " Widget 100.00 "; lit "Gadget 50.00" ++ nl])
  = lit "--- PAGE 1 ---" ++ nl ++ lit "Widget 100.00" ++ nl ++ nl
    ++ lit "--- PAGE 2 ---" ++ nl ++ lit "Gadget 50.00" ++ nl ++ nl.
Proof. vm_compute. reflexivity. Qed.

(** X16. When [main.py] prints no warning, the request it makes fits the
    context window by the script's own estimate of four characters to a
    token: the estimated tokens of the prompt and the [max_tokens] reserved
    for the response are together at most [context_window]. *)
Theorem unwarned_prompt_fits_the_context_window (ext : externals)
    (complete : option pystr → N → N → pystr → pystr → result pystr)
    (key : option pystr) (max_tokens context_window : N) (model prompt : pystr) :
  existsb MainScript.is_warning (MainScript.script ext complete).1 = false →
  MainScript.Complete key max_tokens context_window model prompt
    ∈ (MainScript.script ext complete).1 →
  (inject_Z (Z.of_nat (length prompt)) / 4 + inject_Z (Z.of_N max_tokens)
   <= inject_Z (Z.of_N context_window))%Q.
Proof.
  unfold MainScript.script, MainScript.extract_text_from_pdf.
  destruct (pdf_load_data ext _) as [documents|e]; simpl;
    [|by intros _ ?%elem_of_nil].
  set (text := MainScript.add_pages 0 documents []).
  destruct (Qgt_bool _ _) eqn:Hgt.
  { destruct (complete _ _ _ _ _); simpl; discriminate. }
  assert (Hshort : (Z.of_nat (length text) <= 24000)%Z).
  { destruct (decide (24000 < Z.of_nat (length text))%Z) as [Hlong|]; [|lia].
    apply estimate_exceeds in Hlong. congruence. }
  assert (Hfit : (inject_Z (Z.of_nat (length (MainScript.make_prompt text))) / 4
                  + inject_Z (Z.of_N MainScript.max_tokens)
                  <= inject_Z (Z.of_N MainScript.context_window))%Q).
  { unfold MainScript.make_prompt. rewrite !length_app.
    change (length MainScript.prompt_head) with 462. change (length nl) with 1.
    unfold Qle, Qdiv, Qmult, Qplus, Qinv. simpl. lia. }
  intros _ Hin.
  assert (Hreq : MainScript.Complete key max_tokens context_window model prompt
                 = MainScript.Complete (os_getenv ext (lit "OPENROUTER_API_KEY"))
                     MainScript.max_tokens MainScript.context_window
                     (lit "openai/gpt-4o") (MainScript.make_prompt text)).
  { destruct (complete _ _ _ _ _); simpl in Hin;
      repeat (apply elem_of_cons in Hin as [Hin|Hin]; try done);
      by apply elem_of_nil in Hin. }
  injection Hreq as -> -> -> -> ->. exact Hfit.
Qed.

Lemma unwarned_prompt_fits_the_context_window_witness :
  (inject_Z (Z.of_nat (length (MainScript.make_prompt
                                 (MainScript.add_pages 0 [scenario_page] [])))) / 4
   + inject_Z (Z.of_N 2048)
   <= inject_Z (Z.of_N 8192))%Q.
Proof.
  apply (unwarned_prompt_fits_the_context_window scenario_ext
           (λ _ _ _ _ _, Ok (lit "{}")) (Some (lit "sk-or-test")) 2048 8192
           (lit "openai/gpt-4o")).
  - vm_compute. reflexivity.
  - vm_compute. apply list_elem_of_further, list_elem_of_here.
Defined.
